(** * Shotcraft case-based inventory: the computation engine of [app.py]

    A shallow embedding of [compute_results] (src/app.py, lines 68-105) and
    the properties of it that the specification states, followed by the
    sheet and column logic of [load_excel] (lines 11-66) and the sheets
    [download_updated_inventory] writes (lines 107-118).

    Data representation.
    - A pandas float64 value is a [num]: a finite value, one of the two
      infinities, or NaN.  A finite double is represented by the rational it
      denotes.  The three arithmetic operations of the function
      ([*], [-], [/]) are those of binary64: the exact result is rounded to
      the nearest double, ties to even ([round64]); a result of magnitude
      [2^1024] or more after rounding is an infinity, and a result too small
      is a subnormal or zero.  The two zeros of binary64 are one value here:
      the function compares them and takes [math.floor] of them, which does
      not tell them apart, and it never divides by one.
    - A spreadsheet cell is a [cell]: something [pd.to_numeric] reads as a
      number, or something it cannot read.  The numbers of a float64 column
      are doubles; the model admits any rational in a cell, [binary64] tells
      the values a double can hold, and every result of an operation is
      one.
    - Component names, column labels and sheet names are text.  Frames whose
      names or labels are of other types (a numeric header, on which
      [c.lower()] fails, or names [sort_values] cannot compare) are not
      values of this model.
    - A DataFrame is the list of its rows, in index order.
    - A Python exception is the left injection of a sum. *)

From Stdlib Require Import String ZArith QArith Qround Qpower Qreduction.
From Stdlib Require Import Bool Arith Lia Lqa List.
From Stdlib Require Import Permutation Sorted.
Import ListNotations.

Local Open Scope Q_scope.
Local Open Scope string_scope.
Local Open Scope list_scope.

(* ------------------------------------------------------------------ *)
(** ** float64 values *)

Module Num.

Inductive num : Type :=
| Fin (q : Q)
| PInf
| NInf
| NaN.

Definition zero : num := Fin 0.

Definition is_nan (x : num) : bool :=
  match x with NaN => true | _ => false end.

Definition is_finite (x : num) : bool :=
  match x with Fin _ => true | _ => false end.

Definition Qltb (a b : Q) : bool :=
  match (a ?= b)%Q with Lt => true | _ => false end.

Definition Qeqb (a b : Q) : bool :=
  match (a ?= b)%Q with Eq => true | _ => false end.

(** [x < y] on floats: false as soon as one side is NaN. *)
Definition ltb (x y : num) : bool :=
  match x, y with
  | NaN, _ | _, NaN => false
  | _, NInf => false
  | NInf, _ => true
  | PInf, _ => false
  | Fin _, PInf => true
  | Fin a, Fin b => Qltb a b
  end.

(** [x > y]. *)
Definition gtb (x y : num) : bool := ltb y x.

(** [x <= y]: false as soon as one side is NaN. *)
Definition leb (x y : num) : bool :=
  match x, y with
  | NaN, _ | _, NaN => false
  | NInf, _ => true
  | _, PInf => true
  | _, NInf => false
  | PInf, _ => false
  | Fin a, Fin b => negb (Qltb b a)
  end.

(** [x == y] on floats. *)
Definition eqb (x y : num) : bool :=
  match x, y with
  | Fin a, Fin b => Qeqb a b
  | PInf, PInf | NInf, NInf => true
  | _, _ => false
  end.

(** Same float: as [eqb], and NaN is the same as NaN.  Two fractions of one
    value denote the same double. *)
Definition same (x y : num) : Prop :=
  match x, y with
  | Fin a, Fin b => a == b
  | PInf, PInf | NInf, NInf | NaN, NaN => True
  | _, _ => False
  end.

Definition lt (x y : num) : Prop := ltb x y = true.
Definition le (x y : num) : Prop := leb x y = true.

(** *** Rounding to binary64 *)

(** For [x > 0], the exponent [e] with [2^e <= x < 2^(e+1)]. *)
Definition ilog2 (x : Q) : Z :=
  let e0 := (Z.log2 (Qnum x) - Z.log2 (Zpos (Qden x)))%Z in
  if Qle_bool (2 ^ e0) x then e0 else (e0 - 1)%Z.

(** The nearest integer, a tie going to the even one. *)
Definition round_half_even (x : Q) : Z :=
  let f := Qfloor x in
  match (x - inject_Z f ?= 1 # 2)%Q with
  | Lt => f
  | Gt => (f + 1)%Z
  | Eq => if Z.even f then f else (f + 1)%Z
  end.

(** The exponent of the spacing of the doubles around [x > 0]: 53
    significant bits, and the spacing [2^-1074] of the subnormals below
    [2^-1022]. *)
Definition ulp_exp (x : Q) : Z := Z.max (ilog2 x - 52) (-1074).

(** The nearest multiple of [2^u]. *)
Definition grid (u : Z) (x : Q) : Q :=
  inject_Z (round_half_even (x / 2 ^ u)) * 2 ^ u.

Definition round_pos (x : Q) : Q := grid (ulp_exp x) x.

(** The double a real result is rounded to.  The value is kept as a
    reduced fraction. *)
Definition round64 (q : Q) : num :=
  let x := Qred q in
  match (x ?= 0)%Q with
  | Eq => Fin 0
  | Gt => let v := round_pos x in
          if Qle_bool (2 ^ 1024) v then PInf else Fin (Qred v)
  | Lt => let v := round_pos (- x) in
          if Qle_bool (2 ^ 1024) v then NInf else Fin (Qred (- v))
  end.

(** The value is one a double can hold: rounding leaves it as it is. *)
Definition binary64 (x : num) : bool :=
  match x with
  | Fin q => eqb (round64 q) (Fin q)
  | _ => true
  end.

(** *** Arithmetic *)

(** Sign of an infinity times or over a finite value. *)
Definition inf_signed (positive : bool) : num :=
  if positive then PInf else NInf.

Definition mul (x y : num) : num :=
  match x, y with
  | NaN, _ | _, NaN => NaN
  | Fin a, Fin b => round64 (a * b)
  | Fin a, PInf | PInf, Fin a =>
      if Qeqb a 0 then NaN else inf_signed (Qltb 0 a)
  | Fin a, NInf | NInf, Fin a =>
      if Qeqb a 0 then NaN else inf_signed (Qltb a 0)
  | PInf, PInf | NInf, NInf => PInf
  | PInf, NInf | NInf, PInf => NInf
  end.

Definition sub (x y : num) : num :=
  match x, y with
  | NaN, _ | _, NaN => NaN
  | Fin a, Fin b => round64 (a - b)
  | Fin _, PInf => NInf
  | Fin _, NInf => PInf
  | PInf, PInf | NInf, NInf => NaN
  | PInf, _ => PInf
  | NInf, _ => NInf
  end.

(** numpy float division; a zero divisor gives an infinity or NaN. *)
Definition div (x y : num) : num :=
  match x, y with
  | NaN, _ | _, NaN => NaN
  | Fin a, Fin b =>
      if Qeqb b 0
      then (if Qeqb a 0 then NaN else inf_signed (Qltb 0 a))
      else round64 (a / b)
  | Fin _, PInf | Fin _, NInf => Fin 0
  | PInf, Fin b => inf_signed (negb (Qltb b 0))
  | NInf, Fin b => inf_signed (Qltb b 0)
  | _, _ => NaN
  end.

End Num.
Import Num.

(* ------------------------------------------------------------------ *)
(** ** Exceptions *)

Inductive exn : Type :=
| OverflowError   (* math.floor of an infinity *)
| ValueError      (* math.floor of NaN; idxmin of an all-NaN column *)
| KeyError.       (* df.loc of a label the index lacks *)

Definition result (A : Type) : Type := (exn + A)%type.

Definition ret {A : Type} (a : A) : result A := inr a.
Definition raise {A : Type} (e : exn) : result A := inl e.
Definition bind {A B : Type} (m : result A) (k : A -> result B) : result B :=
  match m with
  | inl e => inl e
  | inr a => k a
  end.

Notation "x <- m ;; k" := (bind m (fun x => k))
  (at level 61, m at next level, right associativity).

(** [math.floor]. *)
Definition math_floor (x : num) : result Z :=
  match x with
  | Fin q => ret (Qfloor q)
  | PInf | NInf => raise OverflowError
  | NaN => raise ValueError
  end.

(* ------------------------------------------------------------------ *)
(** ** Input tables *)

(** A cell as [pd.to_numeric] sees it. *)
Inductive cell : Type :=
| Numeric (x : num)   (* a number, or text that parses as one; a blank is NaN *)
| NonNumeric.         (* anything else *)

(** One row of the components frame: columns Component, Per_Case, UOM. *)
Record component : Type := mkComponent {
  c_name : string;
  c_per_case : cell;
  c_uom : string
}.

(** One row of the on-hand frame: columns Component, On_Hand. *)
Definition onhand_entry : Type := (string * cell)%type.

(** [pd.to_numeric(col, errors="coerce")], cell by cell. *)
Definition to_numeric (c : cell) : num :=
  match c with
  | Numeric x => x
  | NonNumeric => NaN
  end.

(** [.fillna(0.0)], value by value. *)
Definition fillna0 (x : num) : num :=
  if is_nan x then zero else x.

Definition coerce (c : cell) : num := fillna0 (to_numeric c).

(* ------------------------------------------------------------------ *)
(** ** The working frame [df] *)

(** A row of [df] restricted to the six columns that [display] and
    [shortages] keep. *)
Record row : Type := mkRow {
  Component : string;
  UOM : string;
  On_Hand : num;
  Per_Case : num;
  Required : num;
  Remaining : num
}.

(** The [bottleneck] dictionary. *)
Record bottleneck_info : Type := mkBottleneck {
  b_Item : string;
  b_UOM : string;
  b_On_Hand : num;
  b_Per_Case : num;
  b_MaxCasesByItem : num
}.

(** The on-hand cells that [merge(..., on="Component", how="left")] puts next
    to one component: one per on-hand entry of that name, in the order of the
    on-hand frame, and a single missing value when there is none. *)
Definition matching_cells (onhand : list onhand_entry) (name : string)
  : list cell :=
  match filter (fun e => String.eqb (fst e) name) onhand with
  | [] => [Numeric NaN]
  | ms => map snd ms
  end.

(** Lines 71-74: the left merge, or the constant column [0.0] when there is
    no on-hand frame. Rows come out in the order of [components]. *)
Definition on_hand_cells (onhand_df : option (list onhand_entry))
    (name : string) : list cell :=
  match onhand_df with
  | Some onhand => matching_cells onhand name
  | None => [Numeric zero]
  end.

Definition merge_left (components : list component)
    (onhand_df : option (list onhand_entry)) : list (component * cell) :=
  flat_map (fun c => map (fun oh => (c, oh)) (on_hand_cells onhand_df (c_name c)))
           components.

(** Lines 77-81 on one merged row.  [cases_sold] is a float, as the
    application passes it, and [float(cases_sold)] is that float. *)
Definition make_row (cases_sold : num) (c : component) (oh : cell) : row :=
  let per_case := coerce (c_per_case c) in
  let on_hand := coerce oh in
  let required := mul per_case cases_sold in
  {| Component := c_name c;
     UOM := c_uom c;
     On_Hand := on_hand;
     Per_Case := per_case;
     Required := required;
     Remaining := sub on_hand required |}.

(** [df] after line 81. *)
Definition frame (components : list component)
    (onhand_df : option (list onhand_entry)) (cases_sold : num) : list row :=
  map (fun co => make_row cases_sold (fst co) (snd co))
      (merge_left components onhand_df).

(* ------------------------------------------------------------------ *)
(** ** Column reductions *)

(** What [skipna=True] reductions do first: NaN becomes [+inf]. *)
Definition fill_inf (x : num) : num :=
  if is_nan x then PInf else x.

Definition min2 (m x : num) : num :=
  if ltb x m then x else m.

(** [Series.min()]: NaN for a column with no value, else the least value. *)
Definition series_min (col : list num) : num :=
  if forallb is_nan col then NaN
  else match map fill_inf col with
       | [] => NaN
       | x :: t => fold_left min2 t x
       end.

(** The loop of [argmin]: position [i] is examined next, [best] at position
    [bi] is the least value so far; a later value replaces it only when it
    is strictly smaller, so the first occurrence is kept. *)
Fixpoint argmin_loop (l : list num) (i bi : nat) (best : num) : nat :=
  match l with
  | [] => bi
  | x :: t =>
      if ltb x best then argmin_loop t (S i) i x
      else argmin_loop t (S i) bi best
  end.

Definition argmin (l : list num) : nat :=
  match l with
  | [] => 0%nat
  | x :: t => argmin_loop t 1 0 x
  end.

(** [Series.idxmin()] on a frame with the default index. *)
Definition series_idxmin (col : list num) : result nat :=
  if forallb is_nan col then raise ValueError
  else ret (argmin (map fill_inf col)).

(* ------------------------------------------------------------------ *)
(** ** Sorting by component name *)

Fixpoint insert_row (r : row) (l : list row) : list row :=
  match l with
  | [] => [r]
  | h :: t =>
      if String.leb (Component r) (Component h) then r :: l
      else h :: insert_row r t
  end.

(** [sort_values("Component")]: ascending in the name. Rows of equal name
    are kept in frame order here; nothing below depends on that order. *)
Definition sort_values (l : list row) : list row :=
  fold_right insert_row [] l.

(* ------------------------------------------------------------------ *)
(** ** [compute_results] *)

(** The operands of every division line 86 performs, in order. *)
Definition divlog : Type := list (num * num).

(** The lambda of line 86, with the division it performs recorded. *)
Definition max_cases_lambda (r : row) : num * divlog :=
  if gtb (Per_Case r) zero
  then (div (On_Hand r) (Per_Case r), [(On_Hand r, Per_Case r)])
  else (PInf, []).

(** [df.apply(lambda, axis=1)]: the new column and all recorded divisions. *)
Definition df_apply (df : list row) : list num * divlog :=
  (map (fun r => fst (max_cases_lambda r)) df,
   flat_map (fun r => snd (max_cases_lambda r)) df).

(** The local variables of [compute_results] when it reaches its [return]. *)
Record locals : Type := mkLocals {
  df : list row;
  max_sellable : Z;
  bottleneck : option bottleneck_info;
  shortages : list row;
  display : list row;
  divisions : divlog
}.

(** Lines 84-98. *)
Definition bottleneck_of (df : list row)
  : result (Z * option bottleneck_info * divlog) :=
  let candidates := filter (fun r => gtb (Per_Case r) zero) df in
  match candidates with
  | _ :: _ =>
      let (col, log) := df_apply df in
      max_sellable <- math_floor (series_min col) ;;
      i <- series_idxmin col ;;
      match nth_error df i, nth_error col i with
      | Some bottleneck_row, Some m =>
          ret (max_sellable,
               Some {| b_Item := Component bottleneck_row;
                       b_UOM := UOM bottleneck_row;
                       b_On_Hand := On_Hand bottleneck_row;
                       b_Per_Case := Per_Case bottleneck_row;
                       b_MaxCasesByItem := m |},
               log)
      | _, _ => raise KeyError
      end
  | [] => ret (0%Z, None, [])
  end.

(** The mask of line 101: [df["Remaining"] < 0]. *)
Definition shortage (r : row) : bool := ltb (Remaining r) zero.

(** The body of [compute_results], up to its [return]. *)
Definition compute_locals (components : list component)
    (onhand_df : option (list onhand_entry)) (cases_sold : num)
  : result locals :=
  let df := frame components onhand_df cases_sold in
  mbl <- bottleneck_of df ;;
  let '(max_sellable, bottleneck, log) := mbl in
  ret {| df := df;
         max_sellable := max_sellable;
         bottleneck := bottleneck;
         shortages := filter shortage df;
         display := sort_values df;
         divisions := log |}.

(** [compute_results]: what line 105 returns. *)
Definition compute_results (components : list component)
    (onhand_df : option (list onhand_entry)) (cases_sold : num)
  : result (list row * Z * list row) :=
  st <- compute_locals components onhand_df cases_sold ;;
  ret (display st, max_sellable st, shortages st).

(* ------------------------------------------------------------------ *)
(** ** Vocabulary of the properties *)

(** *** Names for parts of the function *)

(** The column [MaxCasesByItem]. *)
Definition ratio_col (df : list row) : list num := fst (df_apply df).

(** The mask of line 84: [df["Per_Case"] > 0]. *)
Definition eligible (r : row) : bool := gtb (Per_Case r) zero.

(** The dictionary of lines 89-95 for a row and its column entry. *)
Definition info_of (r : row) (m : num) : bottleneck_info :=
  {| b_Item := Component r;
     b_UOM := UOM r;
     b_On_Hand := On_Hand r;
     b_Per_Case := Per_Case r;
     b_MaxCasesByItem := m |}.

(** The rows the join gives one component. *)
Definition rows_of (onhand_df : option (list onhand_entry)) (cases_sold : num)
    (c : component) : list row :=
  map (make_row cases_sold c) (on_hand_cells onhand_df (c_name c)).

(** The quotient the lambda computes for an eligible row. *)
Definition ratio (r : row) : num := div (On_Hand r) (Per_Case r).

(** The maximum a call returned, if it returned. *)
Definition max_sellable_of (res : result (list row * Z * list row))
  : option Z :=
  match res with
  | inr (_, m, _) => Some m
  | inl _ => None
  end.

(** The same for the bottleneck block alone. *)
Definition floor_of (res : result (Z * option bottleneck_info * divlog))
  : option Z :=
  match res with
  | inr (m, _, _) => Some m
  | inl _ => None
  end.

(** The minimum of a column, scanned from [+inf]. *)
Definition min_from_inf (col : list num) : num :=
  fold_left min2 (map fill_inf col) PInf.

(** *** Tables of real numbers *)

(** A cell that holds a real number once coerced: a finite number, a blank
    or unreadable text (both read as [0]); not an infinity. *)
Definition real_cell (c : cell) : bool := is_finite (coerce c).

Definition real_onhand (onhand_df : option (list onhand_entry)) : bool :=
  match onhand_df with
  | Some onhand => forallb (fun e => real_cell (snd e)) onhand
  | None => true
  end.

(** Every per-case rate and every on-hand quantity is a real number. *)
Definition real_tables (components : list component)
    (onhand_df : option (list onhand_entry)) : bool :=
  forallb (fun c => real_cell (c_per_case c)) components
  && real_onhand onhand_df.

Definition real_row (r : row) : bool :=
  is_finite (On_Hand r) && is_finite (Per_Case r).

Definition fin_or_pinf (x : num) : bool :=
  match x with Fin _ | PInf => true | _ => false end.

(** *** Per-case rates *)

(** At least one component has a positive per-case rate. *)
Definition has_rate (components : list component) : bool :=
  existsb (fun c => gtb (coerce (c_per_case c)) zero) components.

(** The component's rate is 0. *)
Definition zero_rate (c : component) : bool :=
  eqb (coerce (c_per_case c)) zero.

Definition zero_rate_row (r : row) : bool := eqb (Per_Case r) zero.

(** The quotient of every row whose rate is positive is a finite double: no
    division of line 86 overflows or meets an infinity.  The two columns it
    reads do not depend on the order size, taken as 0 here. *)
Definition finite_quotients (components : list component)
    (onhand_df : option (list onhand_entry)) : bool :=
  forallb (fun r => implb (eligible r) (is_finite (ratio r)))
          (frame components onhand_df zero).

(** Every on-hand quantity is one a double can hold. *)
Definition binary64_onhand (onhand_df : option (list onhand_entry)) : bool :=
  match onhand_df with
  | Some onhand => forallb (fun e => binary64 (coerce (snd e))) onhand
  | None => true
  end.

(** *** The join as a lookup *)

(** No component name occurs twice in the on-hand table. *)
Definition unique_names (onhand_df : option (list onhand_entry)) : Prop :=
  match onhand_df with
  | Some onhand => NoDup (map fst onhand)
  | None => True
  end.

(** The on-hand quantity of a name as a lookup: the quantity of its first
    entry, and 0 for a name without entry or when there is no table. *)
Definition lookup_on_hand (onhand_df : option (list onhand_entry))
    (name : string) : num :=
  match onhand_df with
  | Some onhand =>
      match find (fun e => String.eqb (fst e) name) onhand with
      | Some e => coerce (snd e)
      | None => zero
      end
  | None => zero
  end.

(** The row of one component under that lookup. *)
Definition lookup_row (onhand_df : option (list onhand_entry))
    (cases_sold : num) (c : component) : row :=
  let per_case := coerce (c_per_case c) in
  let on_hand := lookup_on_hand onhand_df (c_name c) in
  {| Component := c_name c;
     UOM := c_uom c;
     On_Hand := on_hand;
     Per_Case := per_case;
     Required := mul per_case cases_sold;
     Remaining := sub on_hand (mul per_case cases_sold) |}.

(** How many on-hand entries carry a name. *)
Definition entries_named (onhand : list onhand_entry) (name : string) : nat :=
  length (filter (fun e => String.eqb (fst e) name) onhand).

(** *** Cells that do not read as numbers *)

(** The cell a caller would get by writing [0] where the cell is blank (NaN)
    or is not a number. *)
Definition zero_unreadable (c : cell) : cell :=
  match c with
  | NonNumeric | Numeric NaN => Numeric zero
  | Numeric x => Numeric x
  end.

Definition zero_unreadable_component (c : component) : component :=
  {| c_name := c_name c;
     c_per_case := zero_unreadable (c_per_case c);
     c_uom := c_uom c |}.

Definition zero_unreadable_onhand (onhand_df : option (list onhand_entry))
  : option (list onhand_entry) :=
  option_map (map (fun e => (fst e, zero_unreadable (snd e)))) onhand_df.

(** *** Sample tables *)

(** Two components, both in stock: 10/2 = 5 and 10/5 = 2. *)
Definition scenario_components : list component :=
  [mkComponent "X" (Numeric (Fin 2)) "kg"; mkComponent "Y" (Numeric (Fin 5)) "kg"].

Definition scenario_onhand : option (list onhand_entry) :=
  Some [("X", Numeric (Fin 10)); ("Y", Numeric (Fin 10))].

(** An on-hand table without entry for "X". *)
Definition missing_onhand : option (list onhand_entry) :=
  Some [("Y", Numeric (Fin 10))].

(** One component with two on-hand entries. *)
Definition duplicate_components : list component :=
  [mkComponent "Cap" (Numeric (Fin 1)) "ea"].

Definition duplicate_onhand : list onhand_entry :=
  [("Cap", Numeric (Fin 30)); ("Cap", Numeric (Fin 70))].

(** A rate that is text and a blank on-hand quantity. *)
Definition unreadable_components : list component :=
  [mkComponent "Cap" NonNumeric "ea"; mkComponent "Bottle" (Numeric (Fin 2)) "ea"].

Definition unreadable_onhand : option (list onhand_entry) :=
  Some [("Cap", Numeric (Fin 30)); ("Bottle", Numeric NaN)].

(** A single component with rate 0. *)
Definition no_rate_components : list component :=
  [mkComponent "CapLiner" (Numeric (Fin 0)) "ea"].

(** "Label" and "Bottle" both allow 5 cases; "Idle" has no rate. *)
Definition tie_components : list component :=
  [mkComponent "Idle" (Numeric (Fin 0)) "ea";
   mkComponent "Label" (Numeric (Fin 2)) "ea";
   mkComponent "Bottle" (Numeric (Fin 1)) "ea"].

Definition tie_onhand : option (list onhand_entry) :=
  Some [("Bottle", Numeric (Fin 5)); ("Label", Numeric (Fin 10))].

(** The double nearest to 0.1, which is a little above one tenth. *)
Definition tenth : num := round64 (1 # 10).

(** "B" allows 10/1.0 cases and "A" 1.0/0.1: both quotients are the double
    10.0, although one over the double 0.1 is below ten. *)
Definition rounded_components : list component :=
  [mkComponent "B" (Numeric (Fin 1)) "ea"; mkComponent "A" (Numeric tenth) "ea"].

Definition rounded_onhand : option (list onhand_entry) :=
  Some [("B", Numeric (Fin 10)); ("A", Numeric (Fin 1))].

(** Finite cells whose quotient [2^1023 / 0.5] is too large for a double. *)
Definition overflow_components : list component :=
  [mkComponent "Resin" (Numeric (Fin (1 # 2))) "kg"].

Definition overflow_onhand : option (list onhand_entry) :=
  Some [("Resin", Numeric (Fin (2 ^ 1023)))].

(** *** Further vocabulary: order of the rows, what the bottleneck block reads *)

(** Two rows in the order of [sort_values("Component")]. *)
Definition name_le (a b : row) : Prop :=
  String.leb (Component a) (Component b) = true.

(** A row with its two order-dependent columns blanked: the four columns the
    bottleneck block reads. *)
Definition core (r : row) : row :=
  {| Component := Component r;
     UOM := UOM r;
     On_Hand := On_Hand r;
     Per_Case := Per_Case r;
     Required := zero;
     Remaining := zero |}.

(** The on-hand entry carries the name of some component of the table. *)
Definition known_entry (components : list component) (e : onhand_entry)
  : bool :=
  existsb (fun c => String.eqb (fst e) (c_name c)) components.

(* ------------------------------------------------------------------ *)
(** ** [load_excel] and [download_updated_inventory] *)

(** The two functions around [compute_results] work on whole workbooks.
    Reading and writing the file is taken as given: a workbook is the list
    of its sheets as [pd.read_excel] returns them or as [to_excel] receives
    them, and [str.lower] and [str.strip] are operations the model is
    parameterised by.  Sheet names and column labels are text, as the header
    row of a sheet gives them when its cells are text; a label of another
    type, on which [c.lower()] raises AttributeError, is not a value of the
    model, and a text cell is text [read_excel] keeps as such (it reads
    "n/a" and the like as blank). *)

Module Loader.

(** A cell of a frame: a number (a blank cell is NaN) or text. *)
Inductive xcell : Type :=
| XNum (x : num)
| XText (s : string).

(** [Series.notna()], cell by cell. *)
Definition notna (v : xcell) : bool :=
  match v with
  | XNum NaN => false
  | _ => true
  end.

(** A frame, column by column: label and values, in column order. The labels
    of a frame that was read from a sheet are distinct. *)
Definition xframe : Type := list (string * list xcell).

(** A workbook: the sheets in [sheet_names] order, each with its frame. *)
Definition workbook : Type := list (string * xframe).

(** [str.lower] and [str.strip]. *)
Class StrOps : Type := {
  lower : string -> string;
  strip : string -> string
}.

Inductive exn : Type :=
| IndexError    (* [l[0]] on an empty list *)
| TypeError     (* text divided by a float *)
| KeyError      (* a column label or dictionary key that is absent *)
| ValueError.   (* [read_excel] of a sheet name the workbook lacks *)

Definition res (A : Type) : Type := (exn + A)%type.

Definition bind {A B : Type} (m : res A) (k : A -> res B) : res B :=
  match m with
  | inl e => inl e
  | inr a => k a
  end.

Notation "x <-- m ;; k" := (bind m (fun x => k))
  (at level 61, m at next level, right associativity).

(** *** Python values *)

(** [if x:] for [x] a string or [None]. *)
Definition truthy (o : option string) : option string :=
  match o with
  | Some EmptyString => None
  | _ => o
  end.

(** [l.index(x)] when [x in l]: the first position. *)
Fixpoint index_of (x : string) (l : list string) : option nat :=
  match l with
  | [] => None
  | y :: t => if String.eqb y x then Some 0%nat
              else option_map S (index_of x t)
  end.

(** [l[i]]. *)
Definition item_at (l : list string) (i : nat) : res string :=
  match nth_error l i with
  | Some s => inr s
  | None => inl IndexError
  end.

(** A dictionary from strings to strings, in insertion order. *)
Definition dict : Type := list (string * string).

(** [d[k] = v]. *)
Fixpoint dict_set (k v : string) (d : dict) : dict :=
  match d with
  | [] => [(k, v)]
  | (k', v') :: t =>
      if String.eqb k' k then (k', v) :: t else (k', v') :: dict_set k v t
  end.

(** [d.get(k)]. *)
Definition dict_get (k : string) (d : dict) : option string :=
  option_map snd (find (fun kv => String.eqb (fst kv) k) d).

(** [k in d]. *)
Definition dict_mem (k : string) (d : dict) : bool :=
  match dict_get k d with
  | Some _ => true
  | None => false
  end.

(** [d[k]]. *)
Definition dict_item (k : string) (d : dict) : res string :=
  match dict_get k d with
  | Some v => inr v
  | None => inl KeyError
  end.

(** *** Frames *)

(** [df[c]]. *)
Definition getcol (df : xframe) (c : string) : res (list xcell) :=
  match find (fun p => String.eqb (fst p) c) df with
  | Some p => inr (snd p)
  | None => inl KeyError
  end.

(** [df[c] = values]: the column is replaced, or added as the last one. *)
Fixpoint setcol (df : xframe) (c : string) (values : list xcell) : xframe :=
  match df with
  | [] => [(c, values)]
  | (c', v') :: t =>
      if String.eqb c' c then (c', values) :: t
      else (c', v') :: setcol t c values
  end.

(** [column / k] for a float [k]: text cannot be divided. *)
Fixpoint div_col (values : list xcell) (k : num) : res (list xcell) :=
  match values with
  | [] => inr []
  | XNum x :: t => rest <-- div_col t k ;; inr (XNum (Num.div x k) :: rest)
  | XText _ :: _ => inl TypeError
  end.

(** The cell is a number (possibly blank). *)
Definition is_number (v : xcell) : bool :=
  match v with
  | XNum _ => true
  | XText _ => false
  end.

(** A numeric cell divided by [k]. *)
Definition scale (k : num) (v : xcell) : xcell :=
  match v with
  | XNum x => XNum (Num.div x k)
  | XText _ => v
  end.

(** [pd.read_excel(xls, sheet_name=name)]. *)
Definition read_excel (xls : workbook) (name : string) : res xframe :=
  match find (fun sh => String.eqb (fst sh) name) xls with
  | Some sh => inr (snd sh)
  | None => inl ValueError
  end.

(** *** [load_excel] *)

Section Load.

Context {ops : StrOps}.

(** Lines 27 and 63: [{c.lower().strip(): c for c in columns}]. *)
Definition header_dict (columns : list string) : dict :=
  fold_left (fun d c => dict_set (strip (lower c)) c d) columns [].

(** The loop of lines 17-20 over the candidate names. *)
Fixpoint pick_named (candidates names sheets : list string)
  : res (option string) :=
  match candidates with
  | [] => inr None
  | name :: rest =>
      match index_of name sheets with
      | Some i => s <-- item_at names i ;; inr (Some s)
      | None => pick_named rest names sheets
      end
  end.

(** Lines 14-23: the sheet that holds the formula. *)
Definition formula_sheet_of (sheet_names : list string) : res string :=
  let sheets := map lower sheet_names in
  found <-- pick_named ["formula_695_cases"; "formula"] sheet_names sheets ;;
  match found with
  | Some s => inr s
  | None => item_at sheet_names 0
  end.

(** Line 29: [cols.get("component") or list(df_formula.columns)[0]]. *)
Definition component_column (cols : dict) (columns : list string)
  : res string :=
  match truthy (dict_get "component" cols) with
  | Some c => inr c
  | None => item_at columns 0
  end.

(** Lines 30-43: the frame and the label of its per-case column, or [None]
    when the sheet has neither a per-case nor a batch column. *)
Definition rate_column (df_formula : xframe) (cols : dict)
  : res (option (xframe * string)) :=
  match dict_get "per_case" cols with
  | Some per_case_col => inr (Some (df_formula, per_case_col))
  | None =>
      match truthy (dict_get "batch_qty" cols) with
      | Some _ =>
          batch_col <-- dict_item "batch_qty" cols ;;
          qty <-- getcol df_formula batch_col ;;
          per_case <-- div_col qty (Fin 695) ;;
          inr (Some (setcol df_formula "Per_Case" per_case, "Per_Case"))
      | None => inr None
      end
  end.

(** Lines 45-53: the rows (Component, Per_Case, UOM) whose name is not
    blank. *)
Definition build_components (df_formula : xframe)
    (comp_col per_case_col : string) (uom_col : option string)
  : res (list (xcell * xcell * xcell)) :=
  names <-- getcol df_formula comp_col ;;
  rates <-- getcol df_formula per_case_col ;;
  uoms <-- match truthy uom_col with
           | Some u => getcol df_formula u
           | None => inr (repeat (XText "") (length names))
           end ;;
  inr (filter (fun r => notna (fst (fst r)))
              (combine (combine names rates) uoms)).

(** Lines 55-65: the rows (Component, On_Hand) of the inventory sheet. *)
Definition load_inventory (xls : workbook)
  : res (option (list (xcell * xcell))) :=
  let inv_sheet :=
    find (fun name => String.eqb (lower name) "inventory") (map fst xls) in
  match truthy inv_sheet with
  | Some sheet =>
      inv <-- read_excel xls sheet ;;
      let inv_cols := header_dict (map fst inv) in
      if dict_mem "component" inv_cols && dict_mem "on_hand" inv_cols then
        c <-- dict_item "component" inv_cols ;;
        o <-- dict_item "on_hand" inv_cols ;;
        names <-- getcol inv c ;;
        qty <-- getcol inv o ;;
        inr (Some (combine names qty))
      else inr None
  | None => inr None
  end.

(** What [load_excel] returns when it does not return three [None]. *)
Record loaded : Type := mkLoaded {
  l_components : list (xcell * xcell * xcell);
  l_onhand : option (list (xcell * xcell));
  l_formula_sheet : string
}.

(** [load_excel]; [inr None] is the return of line 43, after the message. *)
Definition load_excel (xls : workbook) : res (option loaded) :=
  formula_sheet <-- formula_sheet_of (map fst xls) ;;
  df_formula <-- read_excel xls formula_sheet ;;
  let columns := map fst df_formula in
  let cols := header_dict columns in
  comp_col <-- component_column cols columns ;;
  let uom_col := dict_get "uom" cols in
  chosen <-- rate_column df_formula cols ;;
  match chosen with
  | None => inr None
  | Some (df_formula, per_case_col) =>
      components <-- build_components df_formula comp_col per_case_col uom_col ;;
      onhand_df <-- load_inventory xls ;;
      inr (Some {| l_components := components;
                   l_onhand := onhand_df;
                   l_formula_sheet := formula_sheet |})
  end.

(** A header as the dictionaries key it. *)
Definition norm (c : string) : string := strip (lower c).

(** [c] is the rightmost header that normalises to [key]. *)
Definition header_of (columns : list string) (key c : string) : Prop :=
  exists pre suf,
    columns = pre ++ c :: suf /\ norm c = key /\
    Forall (fun x => norm x <> key) suf.

(** No header normalises to [key]. *)
Definition no_header (columns : list string) (key : string) : Prop :=
  Forall (fun x => norm x <> key) columns.

(** What is left of [load_excel] after line 25. *)
Definition after_read (xls : workbook) (formula_sheet : string)
    (df_formula : xframe) : res (option loaded) :=
  let columns := map fst df_formula in
  let cols := header_dict columns in
  comp_col <-- component_column cols columns ;;
  chosen <-- rate_column df_formula cols ;;
  match chosen with
  | None => inr None
  | Some (df, per_case_col) =>
      components <-- build_components df comp_col per_case_col
                                      (dict_get "uom" cols) ;;
      onhand_df <-- load_inventory xls ;;
      inr (Some {| l_components := components;
                   l_onhand := onhand_df;
                   l_formula_sheet := formula_sheet |})
  end.

(** The label [load_excel] reads the component names from: the rightmost
    header that normalises to "component", unless there is none or it is the
    empty label, and then the first column. *)
Definition name_label (columns : list string) (X : string) : Prop :=
  (header_of columns "component" X /\ X <> "")
  \/ ((no_header columns "component" \/ header_of columns "component" "")
      /\ exists rest, columns = X :: rest).

(** The UOM values of a frame with [n] rows: the column of the rightmost
    header that normalises to "uom", and empty text when there is none. *)
Definition uom_values (df : xframe) (n : nat) (us : list xcell) : Prop :=
  (exists U, header_of (map fst df) "uom" U /\ U <> "" /\
             getcol df U = inr us)
  \/ ((no_header (map fst df) "uom" \/ header_of (map fst df) "uom" "")
      /\ us = repeat (XText "") n).

(** The frame of the formula sheet: lines 14-25. *)
Definition formula_frame (xls : workbook) : res (string * xframe) :=
  formula_sheet <-- formula_sheet_of (map fst xls) ;;
  df_formula <-- read_excel xls formula_sheet ;;
  inr (formula_sheet, df_formula).

End Load.

(** *** [download_updated_inventory] *)

(** [display[["Component","UOM","Per_Case"]]] as a frame. *)
Definition formula_view (display : list row) : xframe :=
  [("Component", map (fun r => XText (Component r)) display);
   ("UOM", map (fun r => XText (UOM r)) display);
   ("Per_Case", map (fun r => XNum (Per_Case r)) display)].

(** [display] as a frame. *)
Definition snapshot_view (display : list row) : xframe :=
  [("Component", map (fun r => XText (Component r)) display);
   ("UOM", map (fun r => XText (UOM r)) display);
   ("On_Hand", map (fun r => XNum (On_Hand r)) display);
   ("Per_Case", map (fun r => XNum (Per_Case r)) display);
   ("Required", map (fun r => XNum (Required r)) display);
   ("Remaining", map (fun r => XNum (Remaining r)) display)].

(** [formula_sheet_name or "FORMULA"]. *)
Definition sheet_name_or_default (formula_sheet_name : option string)
  : string :=
  match truthy formula_sheet_name with
  | Some s => s
  | None => "FORMULA"
  end.

(** The rows of a reloaded formula sheet and inventory sheet. *)
Definition formula_rows (display : list row) : list (xcell * xcell * xcell) :=
  map (fun r => (XText (Component r), XNum (Per_Case r), XText (UOM r)))
      display.

Definition inventory_rows (display : list row) : list (xcell * xcell) :=
  map (fun r => (XText (Component r), XNum (On_Hand r))) display.

(** Lines 107-118: the sheets handed to the writer, in order. The argument
    [original_onhand] is not used. *)
Definition download_updated_inventory (display : list row)
    (original_onhand : option (list onhand_entry))
    (formula_sheet_name : option string) : workbook :=
  [(sheet_name_or_default formula_sheet_name, formula_view display);
   ("INVENTORY", snapshot_view display)].

(** *** [str.lower] and [str.strip] on ASCII text *)

Definition lower_char (a : Ascii.ascii) : Ascii.ascii :=
  let n := Ascii.nat_of_ascii a in
  if (Nat.leb 65 n && Nat.leb n 90)%bool then Ascii.ascii_of_nat (n + 32)
  else a.

Fixpoint lower_ascii (s : string) : string :=
  match s with
  | EmptyString => EmptyString
  | String a t => String (lower_char a) (lower_ascii t)
  end.

Definition is_space (a : Ascii.ascii) : bool :=
  let n := Ascii.nat_of_ascii a in
  ((Nat.leb 9 n && Nat.leb n 13) || (Nat.leb 28 n && Nat.leb n 32))%bool.

Fixpoint lstrip (l : list Ascii.ascii) : list Ascii.ascii :=
  match l with
  | a :: t => if is_space a then lstrip t else l
  | [] => []
  end.

Definition strip_ascii (s : string) : string :=
  string_of_list_ascii
    (rev (lstrip (rev (lstrip (list_ascii_of_string s))))).

Definition ascii_ops : StrOps :=
  {| lower := lower_ascii; strip := strip_ascii |}.

(** *** Sample workbooks *)

(** A formula sheet with a blank component name, a rate of 0 and a text
    rate, and headers in mixed case. *)
Definition sample_formula : xframe :=
  [(" COMPONENT", [XText "Cap"; XNum NaN; XText "Label"; XText "Box"]);
   ("per_case", [XNum (Fin 1); XNum (Fin 2); XNum (Fin 0); XText "tbd"]);
   ("Batch_Qty", [XNum (Fin 695); XNum (Fin 1390); XNum (Fin 0); XNum (Fin 7)])].

Definition sample_inventory : xframe :=
  [("Component", [XText "Cap"; XNum NaN]);
   ("ON_HAND ", [XNum (Fin 40); XNum (Fin 3)])].

Definition sample_workbook : workbook :=
  [("Notes", []); ("FORMULA", sample_formula); ("Inventory", sample_inventory)].

(** A formula sheet with batch quantities only. *)
Definition batch_formula : xframe :=
  [("Component", [XText "Cap"; XText "Label"]);
   ("Batch_Qty", [XNum (Fin 695); XNum (Fin 1390)])].

Definition batch_workbook : workbook := [("Sheet1", batch_formula)].

End Loader.

(* ------------------------------------------------------------------ *)
(** ** Order facts on [num] *)

Section NumOrder.

Lemma Qltb_lt (a b : Q) : Qltb a b = true <-> a < b.
Proof.
  unfold Qltb. rewrite Qlt_alt. destruct (a ?= b)%Q; split; congruence.
Qed.

Lemma Qltb_ge (a b : Q) : Qltb a b = false <-> b <= a.
Proof.
  split; intro H.
  - apply Qnot_lt_le. intro L. apply Qltb_lt in L. congruence.
  - destruct (Qltb a b) eqn:E; [|reflexivity].
    apply Qltb_lt in E. exfalso. exact (Qle_not_lt _ _ H E).
Qed.

Lemma Qeqb_eq (a b : Q) : Qeqb a b = true <-> a == b.
Proof.
  unfold Qeqb. rewrite Qeq_alt. destruct (a ?= b)%Q; split; congruence.
Qed.

Lemma Qeqb_neq (a b : Q) : Qeqb a b = false <-> ~ a == b.
Proof.
  rewrite <- Qeqb_eq. destruct (Qeqb a b); split; congruence.
Qed.

Lemma ltb_trans (x y z : num) :
  ltb x y = true -> ltb y z = true -> ltb x z = true.
Proof.
  destruct x, y, z; simpl; try congruence.
  rewrite !Qltb_lt. apply Qlt_trans.
Qed.

(** On values that are not NaN, "not greater" is the other order. *)
Lemma ltb_false_leb (x y : num) :
  is_nan x = false -> is_nan y = false -> ltb y x = false -> leb x y = true.
Proof.
  destruct x, y; simpl; try congruence. intros _ _ ->. reflexivity.
Qed.

Lemma leb_ltb_false (x y : num) : leb x y = true -> ltb y x = false.
Proof.
  destruct x, y; simpl; try congruence. intro H.
  apply negb_true_iff in H. exact H.
Qed.

Lemma ltb_leb (x y : num) : ltb x y = true -> leb x y = true.
Proof.
  destruct x, y; simpl; try congruence.
  rewrite Qltb_lt. intro H. apply negb_true_iff, Qltb_ge, Qlt_le_weak, H.
Qed.

(** A value below [b] is below everything that is not below [b]. *)
Lemma ltb_below_all (x b y : num) :
  is_nan y = false -> ltb x b = true -> ltb y b = false -> ltb x y = true.
Proof.
  destruct x, b, y; simpl; try congruence.
  rewrite !Qltb_lt, Qltb_ge. intros _ H1 H2. eapply Qlt_le_trans; eauto.
Qed.

Lemma ltb_PInf_l (x : num) : ltb PInf x = false.
Proof. destruct x; reflexivity. Qed.

Lemma leb_Fin (a b : Q) : leb (Fin a) (Fin b) = true <-> a <= b.
Proof.
  simpl. rewrite negb_true_iff. apply Qltb_ge.
Qed.

Lemma ltb_Fin (a b : Q) : ltb (Fin a) (Fin b) = true <-> a < b.
Proof. simpl. apply Qltb_lt. Qed.

End NumOrder.

(* ------------------------------------------------------------------ *)
(** ** Rounding to binary64 *)

Section Rounding.

Lemma rhe_comp (x y : Q) : x == y -> round_half_even x = round_half_even y.
Proof.
  intro H. unfold round_half_even. cbv zeta.
  rewrite (Qfloor_comp x y H).
  assert (Hc : (x - inject_Z (Qfloor y) ?= 1 # 2)%Q
               = (y - inject_Z (Qfloor y) ?= 1 # 2)%Q).
  { apply Qcompare_comp; [|reflexivity]. rewrite H. reflexivity. }
  now rewrite Hc.
Qed.

Lemma rhe_int (n : Z) : round_half_even (inject_Z n) = n.
Proof.
  unfold round_half_even. rewrite Qfloor_Z.
  assert (H : (inject_Z n - inject_Z n ?= 1 # 2)%Q = Lt).
  { apply Qlt_alt. unfold Qminus. rewrite Qplus_opp_r. reflexivity. }
  now rewrite H.
Qed.

Lemma rhe_cases (x : Q) :
  (round_half_even x = Qfloor x /\ x - inject_Z (Qfloor x) <= 1 # 2)
  \/ (round_half_even x = (Qfloor x + 1)%Z /\ 1 # 2 <= x - inject_Z (Qfloor x)).
Proof.
  unfold round_half_even.
  destruct (Qcompare_spec (x - inject_Z (Qfloor x)) (1 # 2)) as [E|E|E].
  - destruct (Z.even (Qfloor x)); [left|right]; split; auto; rewrite E;
      apply Qle_refl.
  - left. split; auto. now apply Qlt_le_weak.
  - right. split; auto. now apply Qlt_le_weak.
Qed.

(** Rounding to the nearest integer keeps the order. *)
Lemma rhe_mono (x y : Q) :
  x <= y -> (round_half_even x <= round_half_even y)%Z.
Proof.
  intro H. pose proof (Qfloor_resp_le x y H) as Hf.
  destruct (Z.eq_dec (Qfloor x) (Qfloor y)) as [E|N].
  - unfold round_half_even. rewrite <- E.
    set (f := Qfloor x). set (fq := inject_Z f).
    assert (Hxy : x - fq <= y - fq) by lra.
    destruct (Qcompare_spec (x - fq) (1 # 2)) as [Ex|Ex|Ex];
      destruct (Qcompare_spec (y - fq) (1 # 2)) as [Ey|Ey|Ey];
      try (destruct (Z.even f)); try lia; exfalso; clearbody fq; lra.
  - destruct (rhe_cases x) as [[-> _]|[-> _]];
      destruct (rhe_cases y) as [[-> _]|[-> _]]; lia.
Qed.

Lemma rhe_nonneg (x : Q) : 0 <= x -> (0 <= round_half_even x)%Z.
Proof.
  intro H. rewrite <- (rhe_int 0). now apply rhe_mono.
Qed.

Lemma pow2_pos (e : Z) : 0 < 2 ^ e.
Proof. apply Qpower_0_lt. reflexivity. Qed.

Lemma pow2_plus (a b : Z) : 2 ^ (a + b) == 2 ^ a * 2 ^ b.
Proof. apply Qpower_plus. discriminate. Qed.

Lemma pow2_le (a b : Z) : (a <= b)%Z -> 2 ^ a <= 2 ^ b.
Proof. intro H. apply Qpower_le_compat_l; [exact H | discriminate]. Qed.

Lemma pow2_lt_inv (a b : Z) : 2 ^ a < 2 ^ b -> (a < b)%Z.
Proof. intro H. apply (Qpower_lt_compat_l_inv 2); [exact H | reflexivity]. Qed.

Lemma pow2_Z (k : Z) : (0 <= k)%Z -> 2 ^ k == inject_Z (2 ^ k).
Proof. intro H. symmetry. apply (Zpower_Qpower 2 k H). Qed.

Lemma pow2_minus (a b : Z) : 2 ^ (a - b) == 2 ^ a / 2 ^ b.
Proof.
  unfold Z.sub. rewrite pow2_plus, Qpower_opp. reflexivity.
Qed.

(** [ilog2] is the exponent of its argument. *)
Lemma ilog2_spec (x : Q) : 0 < x -> 2 ^ ilog2 x <= x /\ x < 2 ^ (ilog2 x + 1).
Proof.
  intro Hx. destruct x as [n d]. unfold ilog2. simpl Qnum. simpl Qden.
  assert (Hn : (0 < n)%Z).
  { unfold Qlt in Hx. simpl in Hx. lia. }
  set (a := Z.log2 n). set (b := Z.log2 (Z.pos d)).
  destruct (Z.log2_spec n Hn) as [Ha1 Ha2]. fold a in Ha1, Ha2.
  destruct (Z.log2_spec (Z.pos d) (Pos2Z.is_pos d)) as [Hb1 Hb2].
  fold b in Hb1, Hb2.
  assert (Ha0 : (0 <= a)%Z) by apply Z.log2_nonneg.
  assert (Hb0 : (0 <= b)%Z) by apply Z.log2_nonneg.
  assert (Hd : 0 < inject_Z (Z.pos d)) by reflexivity.
  assert (Hxq : n # d == inject_Z n / inject_Z (Z.pos d)) by apply Qmake_Qdiv.
  assert (HA : inject_Z n < 2 ^ (a + 1)).
  { rewrite (pow2_Z (a + 1)) by lia. rewrite <- Zlt_Qlt.
    replace (a + 1)%Z with (Z.succ a) by lia. exact Ha2. }
  assert (HA' : 2 ^ a <= inject_Z n).
  { rewrite (pow2_Z a) by lia. rewrite <- Zle_Qle. exact Ha1. }
  assert (HB : 2 ^ b <= inject_Z (Z.pos d)).
  { rewrite (pow2_Z b) by lia. rewrite <- Zle_Qle. exact Hb1. }
  assert (HB' : inject_Z (Z.pos d) <= 2 ^ (b + 1)).
  { rewrite (pow2_Z (b + 1)) by lia. rewrite <- Zle_Qle.
    replace (b + 1)%Z with (Z.succ b) by lia. lia. }
  assert (Hup : n # d < 2 ^ (a - b + 1)).
  { rewrite Hxq. apply Qlt_shift_div_r; [exact Hd|].
    apply Qlt_le_trans with (2 ^ (a - b + 1) * 2 ^ b).
    - rewrite <- pow2_plus. replace (a - b + 1 + b)%Z with (a + 1)%Z by lia.
      exact HA.
    - apply Qmult_le_l; [apply pow2_pos | exact HB]. }
  assert (Hlo : 2 ^ (a - b - 1) <= n # d).
  { rewrite Hxq. apply Qle_shift_div_l; [exact Hd|].
    apply Qle_trans with (2 ^ (a - b - 1) * 2 ^ (b + 1)).
    - apply Qmult_le_l; [apply pow2_pos | exact HB'].
    - rewrite <- pow2_plus. replace (a - b - 1 + (b + 1))%Z with a by lia.
      exact HA'. }
  destruct (Qle_bool (2 ^ (a - b)) (n # d)) eqn:E.
  - apply Qle_bool_iff in E. split; assumption.
  - split; [exact Hlo|].
    replace (a - b - 1 + 1)%Z with (a - b)%Z by lia.
    apply Qnot_le_lt. intro H. apply Qle_bool_iff in H. congruence.
Qed.

Lemma ilog2_mono (x y : Q) : 0 < x -> x <= y -> (ilog2 x <= ilog2 y)%Z.
Proof.
  intros Hx Hxy.
  assert (Hy : 0 < y) by (eapply Qlt_le_trans; eauto).
  destruct (ilog2_spec x Hx) as [Hx1 _].
  destruct (ilog2_spec y Hy) as [_ Hy2].
  assert (H : 2 ^ ilog2 x < 2 ^ (ilog2 y + 1)).
  { eapply Qle_lt_trans; [exact Hx1|]. eapply Qle_lt_trans; eauto. }
  apply pow2_lt_inv in H. lia.
Qed.

Lemma grid_mono (u : Z) (x y : Q) : x <= y -> grid u x <= grid u y.
Proof.
  intro H. unfold grid.
  apply Qmult_le_compat_r; [|apply Qlt_le_weak, pow2_pos].
  rewrite <- Zle_Qle. apply rhe_mono. unfold Qdiv.
  apply Qmult_le_compat_r; [exact H|].
  apply Qlt_le_weak, Qinv_lt_0_compat, pow2_pos.
Qed.

(** A power of two is on every finer grid. *)
Lemma grid_pow2 (u k : Z) : (u <= k)%Z -> grid u (2 ^ k) == 2 ^ k.
Proof.
  intro H. unfold grid.
  assert (E : 2 ^ k / 2 ^ u == inject_Z (2 ^ (k - u))).
  { rewrite <- pow2_minus. apply pow2_Z. lia. }
  rewrite (rhe_comp _ _ E), rhe_int.
  rewrite <- pow2_Z by lia. rewrite <- pow2_plus.
  replace (k - u + u)%Z with k by lia. reflexivity.
Qed.

Lemma grid_le_pow2 (u k : Z) (x : Q) :
  (u <= k)%Z -> x <= 2 ^ k -> grid u x <= 2 ^ k.
Proof.
  intros Hu Hx. rewrite <- (grid_pow2 u k Hu). now apply grid_mono.
Qed.

Lemma grid_ge_pow2 (u k : Z) (y : Q) :
  (u <= k)%Z -> 2 ^ k <= y -> 2 ^ k <= grid u y.
Proof.
  intros Hu Hy. rewrite <- (grid_pow2 u k Hu). now apply grid_mono.
Qed.

Lemma grid_nonneg (u : Z) (x : Q) : 0 <= x -> 0 <= grid u x.
Proof.
  intro H. unfold grid. apply Qmult_le_0_compat.
  - change 0 with (inject_Z 0). rewrite <- Zle_Qle. apply rhe_nonneg.
    unfold Qdiv. apply Qmult_le_0_compat; [exact H|].
    apply Qlt_le_weak, Qinv_lt_0_compat, pow2_pos.
  - apply Qlt_le_weak, pow2_pos.
Qed.

Lemma round_pos_nonneg (x : Q) : 0 <= x -> 0 <= round_pos x.
Proof. intro H. unfold round_pos. now apply grid_nonneg. Qed.

(** Rounding a positive value keeps the order, also across a change of
    spacing: the power of two between the two values is on both grids. *)
Lemma round_pos_mono (x y : Q) :
  0 < x -> x <= y -> round_pos x <= round_pos y.
Proof.
  intros Hx Hxy.
  assert (Hy : 0 < y) by (eapply Qlt_le_trans; eauto).
  unfold round_pos.
  pose proof (ilog2_mono x y Hx Hxy) as He.
  destruct (ilog2_spec x Hx) as [_ Hx2].
  destruct (ilog2_spec y Hy) as [Hy1 _].
  unfold ulp_exp.
  destruct (Z.eq_dec (Z.max (ilog2 x - 52) (-1074))
                     (Z.max (ilog2 y - 52) (-1074))) as [E|N].
  - rewrite E. now apply grid_mono.
  - apply Qle_trans with (2 ^ ilog2 y).
    + apply grid_le_pow2; [lia|].
      apply Qle_trans with (2 ^ (ilog2 x + 1)).
      * now apply Qlt_le_weak.
      * apply pow2_le. lia.
    + apply grid_ge_pow2; [lia | exact Hy1].
Qed.

(** Two fractions of one value round to the same double. *)
Lemma round64_comp (x y : Q) : x == y -> round64 x = round64 y.
Proof.
  intro H. unfold round64. now rewrite (Qred_complete x y H).
Qed.

Lemma round64_zero (x : Q) : x == 0 -> round64 x = Fin 0.
Proof. intro H. now rewrite (round64_comp x 0 H). Qed.

Lemma round64_not_nan (x : Q) : is_nan (round64 x) = false.
Proof.
  unfold round64. cbv zeta.
  destruct (Qred x ?= 0)%Q; try reflexivity.
  - now destruct (Qle_bool _ _).
  - now destruct (Qle_bool _ _).
Qed.

(** Rounding to binary64 keeps the order, overflow to an infinity
    included. *)
Lemma round64_mono (x y : Q) : x <= y -> leb (round64 x) (round64 y) = true.
Proof.
  intro H. unfold round64. cbv zeta.
  assert (H' : Qred x <= Qred y) by (rewrite !Qred_correct; exact H).
  set (a := Qred x) in *. set (b := Qred y) in *. clearbody a b.
  destruct (Qcompare_spec a 0) as [Ea|Ea|Ea];
    destruct (Qcompare_spec b 0) as [Eb|Eb|Eb];
    try (exfalso; lra).
  - reflexivity.
  - destruct (Qle_bool (2 ^ 1024) (round_pos b)); [reflexivity|].
    apply leb_Fin. rewrite Qred_correct.
    apply round_pos_nonneg. lra.
  - destruct (Qle_bool (2 ^ 1024) (round_pos (- a))); [reflexivity|].
    apply leb_Fin. rewrite Qred_correct.
    assert (0 <= round_pos (- a)) by (apply round_pos_nonneg; lra). lra.
  - assert (Hm : round_pos (- b) <= round_pos (- a))
      by (apply round_pos_mono; lra).
    destruct (Qle_bool (2 ^ 1024) (round_pos (- a))) eqn:Oa;
      [now destruct (Qle_bool (2 ^ 1024) (round_pos (- b)))|].
    destruct (Qle_bool (2 ^ 1024) (round_pos (- b))) eqn:Ob.
    + exfalso. apply Qle_bool_iff in Ob.
      assert (Hc : Qle_bool (2 ^ 1024) (round_pos (- a)) = true)
        by (apply Qle_bool_iff; eapply Qle_trans; eauto).
      congruence.
    + apply leb_Fin. rewrite !Qred_correct. lra.
  - assert (Ha : 0 <= round_pos (- a)) by (apply round_pos_nonneg; lra).
    assert (Hb : 0 <= round_pos b) by (apply round_pos_nonneg; lra).
    destruct (Qle_bool (2 ^ 1024) (round_pos (- a)));
      destruct (Qle_bool (2 ^ 1024) (round_pos b)); try reflexivity.
    apply leb_Fin. rewrite !Qred_correct. lra.
  - assert (Hm : round_pos a <= round_pos b)
      by (apply round_pos_mono; lra).
    destruct (Qle_bool (2 ^ 1024) (round_pos b)) eqn:Ob;
      destruct (Qle_bool (2 ^ 1024) (round_pos a)) eqn:Oa; try reflexivity.
    + exfalso. apply Qle_bool_iff in Oa.
      assert (Hc : Qle_bool (2 ^ 1024) (round_pos b) = true)
        by (apply Qle_bool_iff; eapply Qle_trans; eauto).
      congruence.
    + apply leb_Fin. rewrite !Qred_correct. exact Hm.
Qed.

(** A product by a rate that is not negative grows with the other factor. *)
Lemma mul_monotone (p n1 n2 : Q) :
  0 <= p -> n1 <= n2 -> leb (mul (Fin p) (Fin n1)) (mul (Fin p) (Fin n2)) = true.
Proof.
  intros Hp Hn. simpl. apply round64_mono.
  rewrite !(Qmult_comm p). now apply Qmult_le_compat_r.
Qed.

(** What is left of a finite quantity shrinks when more is taken. *)
Lemma sub_antitone (o : Q) (x y : num) :
  leb x y = true -> leb (sub (Fin o) y) (sub (Fin o) x) = true.
Proof.
  destruct x as [a| | |], y as [b| | |]; simpl; try discriminate;
    try reflexivity; intro H.
  - apply round64_mono. apply negb_true_iff, Qltb_ge in H. lra.
  - pose proof (round64_not_nan (o - a)) as Hn.
    now destruct (round64 (o - a)).
  - pose proof (round64_not_nan (o - b)) as Hn.
    now destruct (round64 (o - b)).
Qed.

(** The arithmetic on some doubles: 0.01 * 70 is the double above 0.7;
    4.1 / 0.01 is the double below 410; a product too small is 0 and a
    quotient too large is [+inf]. *)
Example binary64_samples :
  ltb (round64 (7 # 10)) (mul (round64 (1 # 100)) (Fin 70)) = true /\
  ltb (div (round64 (41 # 10)) (round64 (1 # 100))) (Fin 410) = true /\
  div (Fin 1) (round64 (1 # 10)) = Fin 10 /\
  mul (round64 (1 / 10 ^ 300)) (round64 (1 / 10 ^ 30)) = Fin 0 /\
  div (Fin (2 ^ 1023)) (Fin (1 # 2)) = PInf /\
  binary64 (round64 (1 # 10)) = true /\ binary64 (Fin (1 # 10)) = false.
Proof. vm_compute. repeat split. Qed.

End Rounding.

(* ------------------------------------------------------------------ *)
(** ** The minimum of a column and its first position *)

Section Minimum.

Lemma min2_fold_cons (x best : num) (t : list num) :
  fold_left min2 (x :: t) best
  = if ltb x best then fold_left min2 t x else fold_left min2 t best.
Proof.
  simpl. unfold min2 at 2. destruct (ltb x best); reflexivity.
Qed.

(** Invariant of the scan: the list read so far is [pre ++ best :: mid],
    everything in [pre] is strictly above [best], nothing in [mid] is
    below it. *)
Lemma argmin_loop_split (t : list num) :
  forall (pre : list num) (best : num) (mid : list num),
    Forall (fun y => ltb best y = true) pre ->
    Forall (fun y => ltb y best = false) mid ->
    Forall (fun y => is_nan y = false) (mid ++ t) ->
    exists pre' x suf,
      pre ++ best :: mid ++ t = pre' ++ x :: suf /\
      argmin_loop t (length (pre ++ best :: mid)) (length pre) best
        = length pre' /\
      fold_left min2 t best = x /\
      Forall (fun y => ltb x y = true) pre' /\
      Forall (fun y => ltb y x = false) suf.
Proof.
  induction t as [|x t IH]; intros pre best mid Hpre Hmid Hnan.
  - exists pre, best, mid. rewrite app_nil_r. simpl. auto.
  - rewrite min2_fold_cons. simpl argmin_loop.
    assert (Hx : is_nan x = false).
    { apply Forall_app in Hnan. destruct Hnan as [_ Hn]. now inversion Hn. }
    destruct (ltb x best) eqn:E.
    + destruct (IH (pre ++ best :: mid) x []) as (pre' & m & suf & Heq & Hi & Hm & H1 & H2).
      * apply Forall_app. split.
        -- eapply Forall_impl; [|exact Hpre]. intros y Hy. simpl in Hy.
           eapply ltb_trans; eauto.
        -- constructor; [exact E|].
           apply Forall_app in Hnan. destruct Hnan as [Hn _].
           rewrite Forall_forall in *. intros y Hy.
           eapply ltb_below_all; eauto.
      * constructor.
      * simpl. apply Forall_app in Hnan. destruct Hnan as [_ Hn].
        now inversion Hn.
      * exists pre', m, suf. simpl app in Heq.
        rewrite <- app_assoc in Heq. simpl app in Heq.
        repeat split; auto.
        rewrite <- Hi. f_equal.
        repeat (rewrite ?length_app; simpl). lia.
    + destruct (IH pre best (mid ++ [x])) as (pre' & m & suf & Heq & Hi & Hm & H1 & H2).
      * exact Hpre.
      * apply Forall_app. split; [exact Hmid|]. constructor; [exact E|constructor].
      * rewrite <- app_assoc. exact Hnan.
      * exists pre', m, suf.
        rewrite <- app_assoc in Heq. simpl app in Heq.
        repeat split; auto.
        rewrite <- Hi. f_equal.
        repeat (rewrite ?length_app; simpl). lia.
Qed.

(** [argmin] and the minimum of a non-empty column without NaN: the column
    splits at the reported position, strictly larger values before it and
    no smaller value after it. *)
Lemma argmin_split (x0 : num) (t : list num) :
  Forall (fun y => is_nan y = false) (x0 :: t) ->
  exists pre x suf,
    x0 :: t = pre ++ x :: suf /\
    argmin (x0 :: t) = length pre /\
    fold_left min2 t x0 = x /\
    Forall (fun y => ltb x y = true) pre /\
    Forall (fun y => leb x y = true) suf /\
    is_nan x = false.
Proof.
  intro Hnan.
  destruct (argmin_loop_split t [] x0 []) as (pre & x & suf & Heq & Hi & Hm & H1 & H2).
  - constructor.
  - constructor.
  - simpl. now inversion Hnan.
  - simpl in Heq, Hi. exists pre, x, suf.
    assert (Hall : Forall (fun y => is_nan y = false) (pre ++ x :: suf))
      by (rewrite <- Heq; exact Hnan).
    apply Forall_app in Hall. destruct Hall as [_ Hall].
    inversion Hall as [|? ? Hx Hsuf]; subst.
    repeat split; auto.
    rewrite Forall_forall in *. intros y Hy.
    apply ltb_false_leb; auto.
Qed.

End Minimum.

(* ------------------------------------------------------------------ *)
(** ** The bottleneck block, lines 84-98 *)

Section Bottleneck.

Lemma fill_inf_not_nan (x : num) : is_nan (fill_inf x) = false.
Proof. destruct x; reflexivity. Qed.

Lemma fill_inf_Fin (x : num) (q : Q) : fill_inf x = Fin q -> x = Fin q.
Proof. destruct x; cbv [fill_inf is_nan]; intro H; (discriminate H || exact H). Qed.

Lemma lambda_Fin (r : row) (q : Q) :
  fst (max_cases_lambda r) = Fin q ->
  eligible r = true /\ div (On_Hand r) (Per_Case r) = Fin q.
Proof.
  unfold max_cases_lambda, eligible.
  destruct (gtb (Per_Case r) zero); simpl; [auto | discriminate].
Qed.

Lemma lambda_eligible (r : row) :
  eligible r = true ->
  max_cases_lambda r
  = (div (On_Hand r) (Per_Case r), [(On_Hand r, Per_Case r)]).
Proof. unfold max_cases_lambda, eligible. now intros ->. Qed.

Lemma lambda_not_eligible (r : row) :
  eligible r = false -> max_cases_lambda r = (PInf, []).
Proof. unfold max_cases_lambda, eligible. now intros ->. Qed.

Lemma bottleneck_of_no_candidate (df : list row) :
  filter eligible df = [] -> bottleneck_of df = inr (0%Z, None, []).
Proof.
  intro H. unfold bottleneck_of.
  change (fun r : row => gtb (Per_Case r) zero) with eligible.
  now rewrite H.
Qed.

Lemma bottleneck_of_candidates (df : list row) :
  filter eligible df <> [] ->
  bottleneck_of df
  = (m <- math_floor (series_min (ratio_col df)) ;;
     i <- series_idxmin (ratio_col df) ;;
     match nth_error df i, nth_error (ratio_col df) i with
     | Some r, Some x => ret (m, Some (info_of r x), snd (df_apply df))
     | _, _ => raise KeyError
     end).
Proof.
  intro H. unfold bottleneck_of.
  change (fun r : row => gtb (Per_Case r) zero) with eligible.
  destruct (filter eligible df); [congruence | reflexivity].
Qed.

(** When the minimum of the column is a finite value, the block succeeds:
    the frame splits at the bottleneck row, whose ratio is that minimum,
    every row before it has a strictly larger entry in the column and no
    row after it a smaller one. *)
Lemma bottleneck_of_min (df : list row) (q : Q) :
  filter eligible df <> [] ->
  series_min (ratio_col df) = Fin q ->
  exists pre r suf,
    df = pre ++ r :: suf /\
    eligible r = true /\
    div (On_Hand r) (Per_Case r) = Fin q /\
    bottleneck_of df
      = inr (Qfloor q, Some (info_of r (Fin q)), snd (df_apply df)) /\
    Forall (fun r' => ltb (Fin q) (fill_inf (fst (max_cases_lambda r'))) = true)
           pre /\
    Forall (fun r' => leb (Fin q) (fill_inf (fst (max_cases_lambda r'))) = true)
           suf.
Proof.
  intros Hcand Hmin.
  rewrite (bottleneck_of_candidates df Hcand).
  unfold series_idxmin. pose proof Hmin as Hmin'. unfold series_min in Hmin.
  destruct (forallb is_nan (ratio_col df)) eqn:Hall; [discriminate|].
  destruct (map fill_inf (ratio_col df)) as [|x0 t] eqn:Hcol; [discriminate|].
  destruct (argmin_split x0 t) as (pre' & x & suf' & Heq & Hi & Hm & H1 & H2 & _).
  { rewrite <- Hcol. apply Forall_forall. intros y Hy.
    apply in_map_iff in Hy. destruct Hy as (z & <- & _).
    apply fill_inf_not_nan. }
  rewrite Hmin in Hm. subst x.
  rewrite <- Hcol in Heq. unfold ratio_col, df_apply in Heq. simpl fst in Heq.
  rewrite map_map in Heq.
  apply map_eq_app in Heq. destruct Heq as (pre & rest & Hdf & Hpre & Hrest).
  apply map_eq_cons in Hrest. destruct Hrest as (r & suf & Hrest & Hr & Hsuf).
  subst rest. apply fill_inf_Fin in Hr.
  destruct (lambda_Fin r q Hr) as [Hel Hdiv].
  exists pre, r, suf.
  assert (Hlen : length pre' = length pre).
  { rewrite <- Hpre. apply length_map. }
  repeat split; auto.
  - rewrite Hmin'. cbn [bind math_floor ret]. rewrite Hi, Hlen.
    rewrite Hdf at 1. rewrite nth_error_app2, Nat.sub_diag by lia. simpl.
    unfold ratio_col, df_apply. simpl fst. rewrite Hdf at 1.
    rewrite map_app. simpl map.
    rewrite nth_error_app2 by (rewrite length_map; lia).
    rewrite length_map, Nat.sub_diag. simpl. rewrite Hr. reflexivity.
  - subst pre'. rewrite Forall_map in H1. exact H1.
  - subst suf'. rewrite Forall_map in H2. exact H2.
Qed.

(** What the block returned, when it returned with a candidate: the floor
    of the quotient of one row, which splits the frame as above. *)
Lemma bottleneck_of_inv (df : list row) (z : Z) (ob : option bottleneck_info)
    (log : divlog) :
  filter eligible df <> [] ->
  bottleneck_of df = inr (z, ob, log) ->
  exists pre r suf q,
    df = pre ++ r :: suf /\
    eligible r = true /\
    div (On_Hand r) (Per_Case r) = Fin q /\
    z = Qfloor q /\ ob = Some (info_of r (Fin q)) /\
    Forall (fun r' => ltb (Fin q) (fill_inf (fst (max_cases_lambda r'))) = true)
           pre /\
    Forall (fun r' => leb (Fin q) (fill_inf (fst (max_cases_lambda r'))) = true)
           suf.
Proof.
  intros Hc H.
  destruct (series_min (ratio_col df)) as [q| | |] eqn:Hm;
    try (rewrite (bottleneck_of_candidates df Hc), Hm in H; discriminate).
  destruct (bottleneck_of_min df q Hc Hm)
    as (pre & r & suf & Hdf & Hel & Hdiv & Hb & Hpre & Hsuf).
  rewrite Hb in H. inversion H; subst z ob log.
  exists pre, r, suf, q. split; [exact Hdf|]. split; [exact Hel|].
  split; [exact Hdiv|]. split; [reflexivity|]. split; [reflexivity|].
  split; assumption.
Qed.

Lemma fill_inf_id (x : num) : is_nan x = false -> fill_inf x = x.
Proof. now destruct x. Qed.

(** In a frame split at the reported row, no candidate has a smaller
    quotient, and the candidates before it have a larger one. *)
Lemma split_least (q : Q) (pre suf : list row) (r r' : row) :
  div (On_Hand r) (Per_Case r) = Fin q ->
  Forall (fun r' => ltb (Fin q) (fill_inf (fst (max_cases_lambda r'))) = true)
         pre ->
  Forall (fun r' => leb (Fin q) (fill_inf (fst (max_cases_lambda r'))) = true)
         suf ->
  In r' (pre ++ r :: suf) -> eligible r' = true ->
  is_nan (div (On_Hand r') (Per_Case r')) = false ->
  leb (Fin q) (div (On_Hand r') (Per_Case r')) = true.
Proof.
  intros Hq Hpre Hsuf Hin Hel Hnan. rewrite Forall_forall in Hpre, Hsuf.
  apply in_app_or in Hin. destruct Hin as [Hin|[<-|Hin]].
  - apply ltb_leb. specialize (Hpre _ Hin).
    rewrite (lambda_eligible _ Hel) in Hpre. simpl fst in Hpre.
    now rewrite (fill_inf_id _ Hnan) in Hpre.
  - rewrite Hq. apply leb_Fin, Qle_refl.
  - specialize (Hsuf _ Hin).
    rewrite (lambda_eligible _ Hel) in Hsuf. simpl fst in Hsuf.
    now rewrite (fill_inf_id _ Hnan) in Hsuf.
Qed.

Lemma split_first (q : Q) (pre : list row) (r' : row) :
  Forall (fun r' => ltb (Fin q) (fill_inf (fst (max_cases_lambda r'))) = true)
         pre ->
  In r' pre -> eligible r' = true ->
  is_nan (div (On_Hand r') (Per_Case r')) = false ->
  ltb (Fin q) (div (On_Hand r') (Per_Case r')) = true.
Proof.
  intros Hpre Hin Hel Hnan. rewrite Forall_forall in Hpre.
  specialize (Hpre _ Hin).
  rewrite (lambda_eligible _ Hel) in Hpre. simpl fst in Hpre.
  now rewrite (fill_inf_id _ Hnan) in Hpre.
Qed.

(** The minimum of a column of [+inf] is [+inf]. *)
Lemma series_min_all_PInf (col : list num) :
  col <> [] -> Forall (fun x => x = PInf) col -> series_min col = PInf.
Proof.
  intros Hne Hall. destruct col as [|x t]; [congruence|].
  inversion Hall as [|? ? Hx Ht]; subst. unfold series_min. simpl.
  clear Hne Hall. induction t as [|y t IH]; [reflexivity|].
  inversion Ht as [|? ? Hy Ht']; subst. simpl. now apply IH.
Qed.

End Bottleneck.

(* ------------------------------------------------------------------ *)
(** ** Sorting *)

Section Sorting.

Lemma insert_row_perm (r : row) (l : list row) :
  Permutation (insert_row r l) (r :: l).
Proof.
  induction l as [|h t IH]; simpl; [reflexivity|].
  destruct (String.leb (Component r) (Component h)); [reflexivity|].
  rewrite IH. apply perm_swap.
Qed.

Lemma sort_values_perm (l : list row) : Permutation (sort_values l) l.
Proof.
  induction l as [|h t IH]; simpl; [reflexivity|].
  rewrite insert_row_perm. now constructor.
Qed.

Lemma sort_values_In (l : list row) (r : row) :
  In r (sort_values l) <-> In r l.
Proof.
  split; apply Permutation_in; [|symmetry]; apply sort_values_perm.
Qed.

Variable R : row -> row -> Prop.
Hypothesis R_name : forall a b, R a b -> Component a = Component b.

(** Two frames with the same names row by row are sorted the same way. *)
Lemma insert_row_Forall2 (a b : row) (l1 l2 : list row) :
  R a b -> Forall2 R l1 l2 -> Forall2 R (insert_row a l1) (insert_row b l2).
Proof.
  intros Hab H. induction H as [|x y l1 l2 Hxy H IH]; simpl.
  - repeat constructor. exact Hab.
  - rewrite <- (R_name _ _ Hab), <- (R_name _ _ Hxy).
    destruct (String.leb (Component a) (Component x)).
    + repeat constructor; assumption.
    + constructor; assumption.
Qed.

Lemma sort_values_Forall2 (l1 l2 : list row) :
  Forall2 R l1 l2 -> Forall2 R (sort_values l1) (sort_values l2).
Proof.
  induction 1; simpl; [constructor|]. now apply insert_row_Forall2.
Qed.

End Sorting.

(* ------------------------------------------------------------------ *)
(** ** Tables of real numbers *)

Section RealTables.

Lemma is_finite_Fin (x : num) : is_finite x = true -> exists q, x = Fin q.
Proof. destruct x; simpl; try discriminate. eauto. Qed.

Lemma matching_cells_In (onhand : list onhand_entry) (name : string) (oh : cell) :
  In oh (matching_cells onhand name) ->
  oh = Numeric NaN \/ In (name, oh) onhand.
Proof.
  unfold matching_cells.
  destruct (filter (fun e => String.eqb (fst e) name) onhand)
    as [|e ms] eqn:E; simpl.
  - intros [<-|[]]. now left.
  - intro H. right.
    assert (Hin : In oh (map snd (e :: ms))) by exact H.
    rewrite <- E in Hin. apply in_map_iff in Hin.
    destruct Hin as ([k v] & <- & Hf). apply filter_In in Hf.
    destruct Hf as [Hf Hk]. simpl in Hk. apply String.eqb_eq in Hk.
    now subst k.
Qed.

Lemma on_hand_cells_real (onhand_df : option (list onhand_entry))
    (name : string) (oh : cell) :
  real_onhand onhand_df = true ->
  In oh (on_hand_cells onhand_df name) -> real_cell oh = true.
Proof.
  destruct onhand_df as [onhand|]; simpl.
  - intros Hall Hin. apply matching_cells_In in Hin. destruct Hin as [->|Hin].
    + reflexivity.
    + rewrite forallb_forall in Hall. exact (Hall _ Hin).
  - intros _ [<-|[]]. reflexivity.
Qed.

Lemma frame_In (components : list component)
    (onhand_df : option (list onhand_entry)) (n : num) (r : row) :
  In r (frame components onhand_df n) <->
  exists c oh, In c components /\
               In oh (on_hand_cells onhand_df (c_name c)) /\
               r = make_row n c oh.
Proof.
  unfold frame, merge_left. rewrite in_map_iff. split.
  - intros ([c oh] & <- & Hin). apply in_flat_map in Hin.
    destruct Hin as (c' & Hc & Hin). apply in_map_iff in Hin.
    destruct Hin as (oh' & Heq & Hoh). inversion Heq; subst.
    exists c, oh. auto.
  - intros (c & oh & Hc & Hoh & ->). exists (c, oh). split; [reflexivity|].
    apply in_flat_map. exists c. split; [exact Hc|].
    apply in_map_iff. eauto.
Qed.

Lemma frame_real (components : list component)
    (onhand_df : option (list onhand_entry)) (n : num) :
  real_tables components onhand_df = true ->
  Forall (fun r => real_row r = true) (frame components onhand_df n).
Proof.
  unfold real_tables. rewrite andb_true_iff, forallb_forall. intros [HC HH].
  apply Forall_forall. intros r Hr. apply frame_In in Hr.
  destruct Hr as (c & oh & Hc & Hoh & ->).
  unfold real_row. simpl. apply andb_true_iff. split.
  - exact (on_hand_cells_real _ _ _ HH Hoh).
  - exact (HC _ Hc).
Qed.

(** On a real row the lambda returns the rounded quotient or [+inf]. *)
Lemma lambda_real (r : row) :
  real_row r = true ->
  (eligible r = true /\
   exists o p, On_Hand r = Fin o /\ Per_Case r = Fin p /\ 0 < p /\
               fst (max_cases_lambda r) = round64 (o / p))
  \/ (eligible r = false /\ fst (max_cases_lambda r) = PInf).
Proof.
  unfold real_row. rewrite andb_true_iff. intros [Ho Hp].
  apply is_finite_Fin in Ho, Hp. destruct Ho as [o Ho], Hp as [p Hp].
  destruct (eligible r) eqn:E.
  - left. split; [reflexivity|]. exists o, p.
    rewrite (lambda_eligible r E). unfold eligible, gtb in E.
    rewrite Hp in E. unfold zero in E. apply ltb_Fin in E.
    rewrite Ho, Hp. repeat split; auto. simpl.
    assert (Hn : Qeqb p 0 = false).
    { apply Qeqb_neq. intro Hz. rewrite Hz in E. exact (Qlt_irrefl _ E). }
    now rewrite Hn.
  - right. split; [reflexivity|]. now rewrite (lambda_not_eligible r E).
Qed.

Lemma lambda_ratio (r : row) :
  eligible r = true -> fst (max_cases_lambda r) = ratio r.
Proof. intro H. now rewrite (lambda_eligible r H). Qed.

(** The quotient of two finite values, the divisor positive, is a double or
    an infinity. *)
Lemma ratio_real (r : row) :
  real_row r = true -> eligible r = true -> is_nan (ratio r) = false.
Proof.
  intros Hr He.
  destruct (lambda_real r Hr) as [(_ & o & p & _ & _ & _ & Hv)|[Hne _]];
    [|congruence].
  rewrite <- (lambda_ratio r He), Hv. apply round64_not_nan.
Qed.

Lemma min2_fin_acc (t : list num) :
  forall a : Q,
    Forall (fun x => fin_or_pinf x = true) t ->
    exists q, fold_left min2 t (Fin a) = Fin q.
Proof.
  induction t as [|x t IH]; intros a Hall; simpl; [eauto|].
  inversion Hall as [|? ? Hx Ht]; subst.
  destruct x; simpl in Hx; try discriminate; unfold min2 at 2; simpl.
  - destruct (Qltb q a); now apply IH.
  - now apply IH.
Qed.

Lemma min2_fin_member (t : list num) :
  forall (acc : num) (v : Q),
    fin_or_pinf acc = true ->
    Forall (fun x => fin_or_pinf x = true) t ->
    In (Fin v) t ->
    exists q, fold_left min2 t acc = Fin q.
Proof.
  induction t as [|x t IH]; intros acc v Hacc Hall Hin; [destruct Hin|].
  inversion Hall as [|? ? Hx Ht]; subst.
  destruct Hin as [->|Hin].
  - simpl. destruct acc; simpl in Hacc; try discriminate; unfold min2 at 2; simpl.
    + destruct (Qltb v q); now apply min2_fin_acc.
    + now apply min2_fin_acc.
  - simpl. apply (IH _ v); auto.
    unfold min2. destruct (ltb x acc); assumption.
Qed.

(** When the quotient of every candidate is finite and there is a
    candidate, the minimum of the column is a finite value. *)
Lemma series_min_finite (df : list row) :
  Forall (fun r => eligible r = true -> is_finite (ratio r) = true) df ->
  filter eligible df <> [] ->
  exists q, series_min (ratio_col df) = Fin q.
Proof.
  intros Hfin Hcand.
  destruct (filter eligible df) as [|r0 rest] eqn:E; [congruence|].
  assert (Hr0 : In r0 (filter eligible df)) by (rewrite E; now left).
  apply filter_In in Hr0. destruct Hr0 as [Hin Hel].
  rewrite Forall_forall in Hfin.
  assert (Hcol : Forall (fun x => fin_or_pinf x = true)
                        (map fill_inf (ratio_col df))).
  { apply Forall_forall. intros x Hx. apply in_map_iff in Hx.
    destruct Hx as (y & <- & Hy). unfold ratio_col, df_apply in Hy.
    simpl in Hy. apply in_map_iff in Hy. destruct Hy as (r & <- & Hr).
    destruct (eligible r) eqn:Er.
    - rewrite (lambda_ratio r Er).
      destruct (is_finite_Fin _ (Hfin r Hr Er)) as [v ->]. reflexivity.
    - rewrite (lambda_not_eligible r Er). reflexivity. }
  destruct (is_finite_Fin _ (Hfin r0 Hin Hel)) as [v Hv].
  assert (Hl0 : fst (max_cases_lambda r0) = Fin v)
    by (now rewrite (lambda_ratio r0 Hel)).
  assert (Hmem : In (Fin v) (map fill_inf (ratio_col df))).
  { apply in_map_iff. exists (Fin v). split; [reflexivity|].
    unfold ratio_col, df_apply. simpl. apply in_map_iff. eauto. }
  assert (Hnn : forallb is_nan (ratio_col df) = false).
  { apply not_true_is_false. intro Hall. rewrite forallb_forall in Hall.
    unfold ratio_col, df_apply in Hall. simpl in Hall.
    assert (Hf : is_nan (Fin v) = true)
      by (apply Hall; apply in_map_iff; eauto).
    discriminate Hf. }
  unfold series_min. rewrite Hnn.
  destruct (map fill_inf (ratio_col df)) as [|x0 t]; [destruct Hmem|].
  inversion Hcol as [|? ? Hx0 Ht]; subst.
  destruct Hmem as [->|Hmem].
  - now apply min2_fin_acc.
  - now apply (min2_fin_member t x0 v).
Qed.

(** [finite_quotients] speaks of the frame of every order size. *)
Lemma finite_quotients_frame (components : list component)
    (onhand_df : option (list onhand_entry)) (n : num) :
  finite_quotients components onhand_df = true ->
  Forall (fun r => eligible r = true -> is_finite (ratio r) = true)
         (frame components onhand_df n).
Proof.
  unfold finite_quotients. rewrite forallb_forall. intro H.
  apply Forall_forall. intros r Hr Hel. apply frame_In in Hr.
  destruct Hr as (c & oh & Hc & Hoh & ->).
  assert (Hz : In (make_row zero c oh) (frame components onhand_df zero))
    by (apply frame_In; eauto).
  specialize (H _ Hz).
  change (eligible (make_row zero c oh)) with (eligible (make_row n c oh)) in H.
  change (ratio (make_row zero c oh)) with (ratio (make_row n c oh)) in H.
  rewrite Hel in H. exact H.
Qed.

End RealTables.

(* ------------------------------------------------------------------ *)
(** ** From the bottleneck block to the whole function *)

Section Whole.

Variable components : list component.
Variable onhand_df : option (list onhand_entry).
Variable cases_sold : num.

Lemma compute_locals_bottleneck (z : Z) (ob : option bottleneck_info)
    (log : divlog) :
  bottleneck_of (frame components onhand_df cases_sold) = inr (z, ob, log) ->
  compute_locals components onhand_df cases_sold
  = inr {| df := frame components onhand_df cases_sold;
           max_sellable := z;
           bottleneck := ob;
           shortages := filter shortage (frame components onhand_df cases_sold);
           display := sort_values (frame components onhand_df cases_sold);
           divisions := log |}.
Proof. unfold compute_locals. now intros ->. Qed.

Lemma compute_results_bottleneck (z : Z) (ob : option bottleneck_info)
    (log : divlog) :
  bottleneck_of (frame components onhand_df cases_sold) = inr (z, ob, log) ->
  compute_results components onhand_df cases_sold
  = inr (sort_values (frame components onhand_df cases_sold), z,
         filter shortage (frame components onhand_df cases_sold)).
Proof.
  intro H. unfold compute_results.
  now rewrite (compute_locals_bottleneck _ _ _ H).
Qed.

Lemma compute_locals_inv (st : locals) :
  compute_locals components onhand_df cases_sold = inr st ->
  df st = frame components onhand_df cases_sold /\
  display st = sort_values (frame components onhand_df cases_sold) /\
  shortages st = filter shortage (frame components onhand_df cases_sold) /\
  bottleneck_of (frame components onhand_df cases_sold)
  = inr (max_sellable st, bottleneck st, divisions st).
Proof.
  unfold compute_locals.
  destruct (bottleneck_of _) as [e|[[z ob] log]]; simpl; [discriminate|].
  intro H. inversion H; subst; simpl. auto.
Qed.

Lemma compute_results_inv (d s : list row) (m : Z) :
  compute_results components onhand_df cases_sold = inr (d, m, s) ->
  d = sort_values (frame components onhand_df cases_sold) /\
  s = filter shortage (frame components onhand_df cases_sold) /\
  exists ob log,
    bottleneck_of (frame components onhand_df cases_sold) = inr (m, ob, log).
Proof.
  unfold compute_results.
  destruct (compute_locals _ _ _) as [e|st] eqn:E; simpl; [discriminate|].
  apply compute_locals_inv in E. destruct E as (_ & Hd & Hs & Hb).
  intro H. inversion H; subst. eauto.
Qed.

Lemma on_hand_cells_nonempty (name : string) :
  on_hand_cells onhand_df name <> [].
Proof.
  destruct onhand_df as [onhand|]; simpl; [|discriminate].
  unfold matching_cells.
  destruct (filter (fun e => String.eqb (fst e) name) onhand); discriminate.
Qed.

Lemma candidates_none :
  has_rate components = false ->
  filter eligible (frame components onhand_df cases_sold) = [].
Proof.
  intro Hno.
  destruct (filter eligible _) as [|r rest] eqn:E; [reflexivity|].
  assert (Hr : In r (filter eligible (frame components onhand_df cases_sold)))
    by (rewrite E; now left).
  apply filter_In in Hr. destruct Hr as [Hin Hel].
  apply frame_In in Hin. destruct Hin as (c & oh & Hc & _ & ->).
  unfold eligible in Hel. simpl in Hel.
  assert (has_rate components = true)
    by (apply existsb_exists; eauto).
  congruence.
Qed.

Lemma candidates_some :
  has_rate components = true ->
  filter eligible (frame components onhand_df cases_sold) <> [].
Proof.
  intros Hr. apply existsb_exists in Hr. destruct Hr as (c & Hc & Hgt).
  destruct (on_hand_cells onhand_df (c_name c)) as [|oh ohs] eqn:E.
  - now apply on_hand_cells_nonempty in E.
  - intro Hnil.
    assert (Hin : In (make_row cases_sold c oh)
                     (filter eligible (frame components onhand_df cases_sold))).
    { apply filter_In. split; [|exact Hgt].
      apply frame_In. exists c, oh. rewrite E. simpl. auto. }
    rewrite Hnil in Hin. destruct Hin.
Qed.

(** The function returns when no quotient is infinite. *)
Lemma compute_results_total :
  finite_quotients components onhand_df = true ->
  exists out, compute_results components onhand_df cases_sold = inr out.
Proof.
  intro Hfin.
  destruct (has_rate components) eqn:Hr.
  - destruct (series_min_finite _ (finite_quotients_frame _ _ cases_sold Hfin)
                (candidates_some Hr)) as [q Hq].
    destruct (bottleneck_of_min _ q (candidates_some Hr) Hq)
      as (pre & r & suf & _ & _ & _ & Hb & _).
    rewrite (compute_results_bottleneck _ _ _ Hb). eauto.
  - rewrite (compute_results_bottleneck _ _ _
               (bottleneck_of_no_candidate _ (candidates_none Hr))). eauto.
Qed.

End Whole.

(* ================================================================== *)
(** * The properties *)

(** ** Empty components table *)

(** C9: with an empty components table, whatever the on-hand table and the
    order size, [compute_results] raises nothing and returns no row, a
    maximum of 0 sellable cases and no shortage; its local [bottleneck] is
    [None]. *)
Theorem empty_components_trivial_result
    (onhand_df : option (list onhand_entry)) (cases_sold : num) :
  compute_results [] onhand_df cases_sold = inr ([], 0%Z, []) /\
  exists st, compute_locals [] onhand_df cases_sold = inr st /\
             bottleneck st = None /\ max_sellable st = 0%Z /\
             display st = [] /\ shortages st = [].
Proof.
  split; [reflexivity|].
  eexists. split; [reflexivity|]. simpl. auto.
Qed.

(** ** Maximum sellable cases *)

(** C1, the clamp: a negative on-hand quantity of the only component gives a
    negative maximum, so the result is not bounded below by 0. *)
Lemma max_sellable_not_clamped :
  ~ (forall d z s,
       compute_results
         [mkComponent "Bottle" (Numeric (Fin 2)) "ea"]
         (Some [("Bottle", Numeric (Fin (-5)))])
         (Fin 0) = inr (d, z, s) ->
       (0 <= z)%Z).
Proof.
  intro H.
  assert (E : max_sellable_of
                (compute_results
                   [mkComponent "Bottle" (Numeric (Fin 2)) "ea"]
                   (Some [("Bottle", Numeric (Fin (-5)))])
                   (Fin 0)) = Some (-3)%Z)
    by (vm_compute; reflexivity).
  destruct (compute_results _ _ _) as [e|[[d z] s]]; [discriminate E|].
  specialize (H d z s eq_refl). simpl in E. inversion E. lia.
Qed.

(** C1, as the code has it: when at least one per-case rate is positive, the
    maximum [compute_results] returns is the floor of the least quotient
    [On_Hand / Per_Case], a binary64 division, among the returned rows whose
    rate is positive; no clamp is applied.  The call returns when every such
    quotient is finite. *)
Theorem max_sellable_floor_min
    (components : list component) (onhand_df : option (list onhand_entry))
    (cases_sold : num) :
  has_rate components = true ->
  (forall d m s,
      compute_results components onhand_df cases_sold = inr (d, m, s) ->
      exists r q,
        In r d /\ eligible r = true /\ ratio r = Fin q /\ m = Qfloor q /\
        forall r', In r' d -> eligible r' = true ->
                   is_nan (ratio r') = false -> le (Fin q) (ratio r')) /\
  (finite_quotients components onhand_df = true ->
   exists d m s,
     compute_results components onhand_df cases_sold = inr (d, m, s)).
Proof.
  intro Hrate.
  pose proof (candidates_some components onhand_df cases_sold Hrate) as Hcand.
  split.
  - intros d m s H. apply compute_results_inv in H.
    destruct H as (-> & _ & ob & log & Hb).
    destruct (bottleneck_of_inv _ _ _ _ Hcand Hb)
      as (pre & r & suf & q & Hdf & Hel & Hdiv & -> & _ & Hpre & Hsuf).
    exists r, q.
    split; [apply sort_values_In; rewrite Hdf; apply in_elt|].
    split; [exact Hel|]. split; [exact Hdiv|]. split; [reflexivity|].
    intros r' Hr' Hel' Hnan. apply (proj1 (sort_values_In _ _)) in Hr'.
    rewrite Hdf in Hr'.
    exact (split_least q pre suf r r' Hdiv Hpre Hsuf Hr' Hel' Hnan).
  - intro Hfin.
    destruct (compute_results_total components onhand_df cases_sold Hfin)
      as [[[d m] s] Hout].
    exists d, m, s. exact Hout.
Qed.

Lemma max_sellable_floor_min_witness :
  has_rate scenario_components = true /\
  finite_quotients scenario_components scenario_onhand = true /\
  exists d s r q,
    compute_results scenario_components scenario_onhand (Fin 3)
    = inr (d, Qfloor q, s) /\
    In r d /\ eligible r = true /\ ratio r = Fin q /\
    forall r', In r' d -> eligible r' = true ->
               is_nan (ratio r') = false -> le (Fin q) (ratio r').
Proof.
  assert (Hr : has_rate scenario_components = true) by reflexivity.
  assert (Hf : finite_quotients scenario_components scenario_onhand = true)
    by (vm_compute; reflexivity).
  split; [exact Hr|]. split; [exact Hf|].
  destruct (max_sellable_floor_min scenario_components scenario_onhand (Fin 3) Hr)
    as [Hret Htot].
  destruct (Htot Hf) as (d & m & s & Hout).
  destruct (Hret d m s Hout) as (r & q & Hin & Hel & Hq & Hm & Hleast).
  exists d, s, r, q. rewrite <- Hm.
  split; [exact Hout|]. split; [exact Hin|]. split; [exact Hel|].
  split; [exact Hq | exact Hleast].
Defined.

(** The quotient is the double the division gives: with 1.0 on hand and
    the double 0.1 per case, [1.0 / 0.1] is the double 10.0 and the maximum
    is 10, although one over that double is below ten. *)
Example rounded_quotient_floor :
  max_sellable_of
    (compute_results [mkComponent "A" (Numeric tenth) "ea"]
                     (Some [("A", Numeric (Fin 1))]) (Fin 0))
  = Some 10%Z /\
  tenth = Fin (3602879701896397 # 36028797018963968) /\
  1 / (3602879701896397 # 36028797018963968) < 10.
Proof. vm_compute. repeat split. Qed.

(** ** Order size zero *)

Section ZeroOrder.

Lemma ltb_same_l (x y z : num) : same x y -> ltb x z = ltb y z.
Proof.
  destruct x, y, z; simpl; try easy.
  intro H. unfold Qltb. now rewrite H.
Qed.

Lemma eqb_same (x y : num) : eqb x y = true -> same x y.
Proof.
  destruct x, y; simpl; try easy. apply Qeqb_eq.
Qed.

Lemma on_hand_cells_binary64 (onhand_df : option (list onhand_entry))
    (name : string) (oh : cell) :
  binary64_onhand onhand_df = true ->
  In oh (on_hand_cells onhand_df name) -> binary64 (coerce oh) = true.
Proof.
  destruct onhand_df as [onhand|]; simpl.
  - intros Hall Hin. apply matching_cells_In in Hin. destruct Hin as [->|Hin].
    + reflexivity.
    + rewrite forallb_forall in Hall. exact (Hall _ Hin).
  - intros _ [<-|[]]. reflexivity.
Qed.

(** Lines 80-81 on one row when nothing is ordered. *)
Lemma zero_order_row (c : component) (oh : cell) :
  real_cell (c_per_case c) = true ->
  real_cell oh = true ->
  binary64 (coerce oh) = true ->
  same (Required (make_row zero c oh)) zero /\
  same (Remaining (make_row zero c oh)) (On_Hand (make_row zero c oh)).
Proof.
  unfold real_cell. intros Hp Ho Hb.
  apply is_finite_Fin in Hp, Ho. destruct Hp as [p Hp], Ho as [o Ho].
  assert (Hreq : mul (coerce (c_per_case c)) zero = Fin 0).
  { rewrite Hp. unfold zero. simpl. apply round64_zero. ring. }
  unfold make_row. cbn [Required Remaining On_Hand]. rewrite Hreq.
  split; [simpl; reflexivity|].
  rewrite Ho in *. cbn [sub].
  rewrite (round64_comp (o - 0) o) by ring.
  apply eqb_same. exact Hb.
Qed.

End ZeroOrder.

(** C2, the shortages: with nothing ordered, a component whose on-hand
    quantity is negative is still reported short. *)
Lemma zero_order_shortage :
  exists d z r,
    compute_results
      [mkComponent "Label" (Numeric (Fin 1)) "ea"]
      (Some [("Label", Numeric (Fin (-4)))])
      (Fin 0) = inr (d, z, [r]) /\
    Component r = "Label" /\ On_Hand r = Fin (-4).
Proof.
  do 3 eexists. split; [vm_compute; reflexivity|]. split; reflexivity.
Qed.

(** C2, as the code has it: on tables of finite numbers whose on-hand
    quantities are doubles, the rows [compute_results] returns for order size
    0 have [Required] 0 and [Remaining] equal to their [On_Hand]; the
    shortages are exactly the returned rows whose [On_Hand] is negative, so
    there is none when no on-hand quantity is negative. *)
Theorem zero_order_identity
    (components : list component) (onhand_df : option (list onhand_entry))
    (d s : list row) (m : Z) :
  real_tables components onhand_df = true ->
  binary64_onhand onhand_df = true ->
  compute_results components onhand_df zero = inr (d, m, s) ->
  Forall (fun r => same (Required r) zero /\
                   same (Remaining r) (On_Hand r)) d /\
  (forall r, In r s <-> In r d /\ lt (On_Hand r) zero) /\
  ((forall r, In r d -> le zero (On_Hand r)) -> s = []).
Proof.
  intros Hreal Hbin Hres.
  apply compute_results_inv in Hres. destruct Hres as (-> & -> & _).
  assert (Hrow : forall r, In r (frame components onhand_df zero) ->
                 same (Required r) zero /\ same (Remaining r) (On_Hand r)).
  { intros r Hr. apply frame_In in Hr. destruct Hr as (c & oh & Hc & Hoh & ->).
    unfold real_tables in Hreal. apply andb_true_iff in Hreal.
    destruct Hreal as [HC HH]. rewrite forallb_forall in HC.
    apply zero_order_row.
    - auto.
    - exact (on_hand_cells_real _ _ _ HH Hoh).
    - exact (on_hand_cells_binary64 _ _ _ Hbin Hoh). }
  assert (Hiff : forall r,
             In r (filter shortage (frame components onhand_df zero)) <->
             In r (sort_values (frame components onhand_df zero)) /\
             lt (On_Hand r) zero).
  { intro r. rewrite filter_In, sort_values_In. unfold shortage, lt.
    split; intros [Hin Hlt]; (split; [exact Hin|]);
      destruct (Hrow r Hin) as [_ Hs];
      [rewrite <- (ltb_same_l _ _ zero Hs) | rewrite (ltb_same_l _ _ zero Hs)];
      exact Hlt. }
  split; [|split].
  - apply Forall_forall. intros r Hr.
    apply (proj1 (sort_values_In _ _)) in Hr. auto.
  - exact Hiff.
  - intro Hpos.
    destruct (filter shortage (frame components onhand_df zero))
      as [|r rest] eqn:E; [reflexivity|].
    destruct (proj1 (Hiff r) (or_introl eq_refl)) as [Hin Hlt].
    apply Hpos, leb_ltb_false in Hin. unfold lt in Hlt. congruence.
Qed.

Lemma zero_order_identity_witness :
  real_tables scenario_components scenario_onhand = true /\
  binary64_onhand scenario_onhand = true /\
  exists d m s,
    compute_results scenario_components scenario_onhand zero = inr (d, m, s) /\
    Forall (fun r => same (Required r) zero /\
                     same (Remaining r) (On_Hand r)) d /\
    (forall r, In r s <-> In r d /\ lt (On_Hand r) zero) /\
    ((forall r, In r d -> le zero (On_Hand r)) -> s = []).
Proof.
  assert (H1 : real_tables scenario_components scenario_onhand = true)
    by reflexivity.
  assert (H2 : binary64_onhand scenario_onhand = true)
    by (vm_compute; reflexivity).
  split; [exact H1|]. split; [exact H2|].
  destruct (compute_results scenario_components scenario_onhand zero)
    as [e|[[d m] s]] eqn:Hres; [vm_compute in Hres; discriminate Hres|].
  exists d, m, s. split; [reflexivity|].
  exact (zero_order_identity scenario_components scenario_onhand d s m
           H1 H2 Hres).
Defined.

(** ** Monotonicity in the order size *)

Section Monotone.

Lemma Forall2_map_same {A B : Type} (R : B -> B -> Prop) (f g : A -> B)
    (l : list A) :
  (forall x, In x l -> R (f x) (g x)) -> Forall2 R (map f l) (map g l).
Proof.
  induction l as [|x l IH]; intro H; simpl; constructor.
  - apply H. now left.
  - apply IH. intros y Hy. apply H. now right.
Qed.

(** Lines 80-81 on one row: a larger order leaves no more.  Both roundings,
    of the product and of the difference, keep the order. *)
Lemma remaining_antitone (c : component) (oh : cell) (n1 n2 : Q) :
  real_cell (c_per_case c) = true ->
  real_cell oh = true ->
  le zero (coerce (c_per_case c)) ->
  n1 < n2 ->
  le (Remaining (make_row (Fin n2) c oh)) (Remaining (make_row (Fin n1) c oh)).
Proof.
  unfold real_cell, le. intros Hp Ho Hpos Hlt.
  apply is_finite_Fin in Hp, Ho. destruct Hp as [p Hp], Ho as [o Ho].
  unfold make_row. cbn [Remaining]. rewrite Hp, Ho in *.
  apply leb_Fin in Hpos.
  apply sub_antitone. apply mul_monotone; [exact Hpos | now apply Qlt_le_weak].
Qed.

End Monotone.

(** C8: on tables of finite numbers whose per-case rates are not negative,
    when [compute_results] returns for two order sizes [n1 < n2], it returns
    the same components row by row, and every row's [Remaining] under [n2]
    is at most its [Remaining] under [n1]: the binary64 product and
    difference of lines 80-81 keep the order. *)
Theorem remaining_monotone
    (components : list component) (onhand_df : option (list onhand_entry))
    (n1 n2 : Q) (d1 d2 s1 s2 : list row) (m1 m2 : Z) :
  real_tables components onhand_df = true ->
  Forall (fun c => le zero (coerce (c_per_case c))) components ->
  n1 < n2 ->
  compute_results components onhand_df (Fin n1) = inr (d1, m1, s1) ->
  compute_results components onhand_df (Fin n2) = inr (d2, m2, s2) ->
  Forall2 (fun r1 r2 => Component r1 = Component r2 /\
                        le (Remaining r2) (Remaining r1)) d1 d2.
Proof.
  intros Hreal Hpos Hlt H1 H2.
  apply compute_results_inv in H1, H2.
  destruct H1 as (-> & _ & _), H2 as (-> & _ & _).
  apply sort_values_Forall2; [now intros a b [Hn _]|].
  unfold frame. apply Forall2_map_same. intros [c oh] Hin. simpl.
  split; [reflexivity|].
  unfold merge_left in Hin. apply in_flat_map in Hin.
  destruct Hin as (c' & Hc & Hin). apply in_map_iff in Hin.
  destruct Hin as (oh' & Heq & Hoh). inversion Heq; subst.
  unfold real_tables in Hreal. apply andb_true_iff in Hreal.
  destruct Hreal as [HC HH]. rewrite forallb_forall in HC.
  rewrite Forall_forall in Hpos.
  apply remaining_antitone; auto.
  exact (on_hand_cells_real _ _ _ HH Hoh).
Qed.

Lemma remaining_monotone_witness :
  real_tables scenario_components scenario_onhand = true /\
  Forall (fun c => le zero (coerce (c_per_case c))) scenario_components /\
  1 < 4 /\
  exists d1 m1 s1 d2 m2 s2,
    compute_results scenario_components scenario_onhand (Fin 1)
    = inr (d1, m1, s1) /\
    compute_results scenario_components scenario_onhand (Fin 4)
    = inr (d2, m2, s2) /\
    Forall2 (fun r1 r2 => Component r1 = Component r2 /\
                          le (Remaining r2) (Remaining r1)) d1 d2.
Proof.
  assert (H1 : real_tables scenario_components scenario_onhand = true)
    by reflexivity.
  assert (H2 : Forall (fun c => le zero (coerce (c_per_case c)))
                      scenario_components)
    by (repeat constructor).
  assert (H3 : 1 < 4) by reflexivity.
  split; [exact H1|]. split; [exact H2|]. split; [exact H3|].
  destruct (compute_results scenario_components scenario_onhand (Fin 1))
    as [e|[[d1 m1] s1]] eqn:E1; [vm_compute in E1; discriminate E1|].
  destruct (compute_results scenario_components scenario_onhand (Fin 4))
    as [e|[[d2 m2] s2]] eqn:E2; [vm_compute in E2; discriminate E2|].
  exists d1, m1, s1, d2, m2, s2.
  split; [reflexivity|]. split; [reflexivity|].
  exact (remaining_monotone scenario_components scenario_onhand 1 4
           d1 d2 s1 s2 m1 m2 H1 H2 H3 E1 E2).
Defined.

(** ** The join with the on-hand table *)

Section Join.

Lemma frame_flat_map (components : list component)
    (onhand_df : option (list onhand_entry)) (n : num) :
  frame components onhand_df n
  = flat_map (fun c => map (make_row n c) (on_hand_cells onhand_df (c_name c)))
             components.
Proof.
  unfold frame, merge_left.
  induction components as [|c l IH]; simpl; [reflexivity|].
  rewrite map_app, map_map, IH. reflexivity.
Qed.

Lemma filter_none {A : Type} (p : A -> bool) (l : list A) :
  (forall x, In x l -> p x = false) -> filter p l = [].
Proof.
  induction l as [|x l IH]; intro H; simpl; [reflexivity|].
  rewrite (H x (or_introl eq_refl)). apply IH. intros y Hy. apply H. now right.
Qed.

(** Under unique names the entries of a name are its first entry, if any. *)
Lemma filter_unique (onhand : list onhand_entry) (name : string) :
  NoDup (map fst onhand) ->
  filter (fun e => String.eqb (fst e) name) onhand
  = match find (fun e => String.eqb (fst e) name) onhand with
    | Some e => [e]
    | None => []
    end.
Proof.
  induction onhand as [|[k v] t IH]; simpl; intro Hnd; [reflexivity|].
  inversion Hnd as [|? ? Hk Ht]; subst.
  destruct (String.eqb k name) eqn:E.
  - f_equal. apply filter_none. intros [k' v'] Hin. simpl.
    apply String.eqb_eq in E. subst k.
    destruct (String.eqb k' name) eqn:E'; [|reflexivity].
    apply String.eqb_eq in E'. subst k'. exfalso. apply Hk.
    apply in_map_iff. exists (name, v'). auto.
  - now apply IH.
Qed.

Lemma make_row_lookup (onhand_df : option (list onhand_entry)) (n : num)
    (c : component) :
  unique_names onhand_df ->
  map (make_row n c) (on_hand_cells onhand_df (c_name c))
  = [lookup_row onhand_df n c].
Proof.
  destruct onhand_df as [onhand|]; simpl; intro Hu; [|reflexivity].
  unfold matching_cells, lookup_row, lookup_on_hand.
  rewrite (filter_unique onhand (c_name c) Hu).
  destruct (find (fun e => String.eqb (fst e) (c_name c)) onhand) as [e|];
    reflexivity.
Qed.

Lemma frame_unique (components : list component)
    (onhand_df : option (list onhand_entry)) (n : num) :
  unique_names onhand_df ->
  frame components onhand_df n = map (lookup_row onhand_df n) components.
Proof.
  intro Hu. rewrite frame_flat_map.
  induction components as [|c l IH]; simpl; [reflexivity|].
  rewrite (make_row_lookup onhand_df n c Hu), IH. reflexivity.
Qed.

Lemma matching_cells_length (onhand : list onhand_entry) (name : string) :
  length (matching_cells onhand name) = Nat.max 1 (entries_named onhand name).
Proof.
  unfold matching_cells, entries_named.
  destruct (filter (fun e => String.eqb (fst e) name) onhand) as [|e ms];
    [reflexivity|].
  rewrite length_map. simpl. reflexivity.
Qed.

Lemma frame_length (components : list component)
    (onhand : list onhand_entry) (n : num) :
  length (frame components (Some onhand) n)
  = list_sum (map (fun c => Nat.max 1 (entries_named onhand (c_name c)))
                  components).
Proof.
  rewrite frame_flat_map.
  induction components as [|c l IH]; [reflexivity|].
  cbn [flat_map map list_sum]. rewrite length_app, length_map, IH.
  cbn [on_hand_cells]. now rewrite matching_cells_length.
Qed.

(** The cells next to a name: the cells of its entries, or one missing value
    when it has no entry. *)
Lemma matching_cells_cases (onhand : list onhand_entry) (name : string)
    (oh : cell) :
  In oh (matching_cells onhand name) <->
  In (name, oh) onhand \/
  (entries_named onhand name = 0%nat /\ oh = Numeric NaN).
Proof.
  unfold matching_cells, entries_named.
  destruct (filter (fun e => String.eqb (fst e) name) onhand)
    as [|e ms] eqn:E.
  - simpl. split.
    + intros [<-|[]]. right. auto.
    + intros [Hin|[_ ->]]; [|now left].
      assert (Hf : In (name, oh)
                      (filter (fun e => String.eqb (fst e) name) onhand)).
      { apply filter_In. split; [exact Hin|]. apply String.eqb_refl. }
      rewrite E in Hf. destruct Hf.
  - split.
    + intro H. left.
      assert (Hin : In oh (map snd (e :: ms))) by exact H.
      rewrite <- E in Hin. apply in_map_iff in Hin.
      destruct Hin as ([k v] & <- & Hf). apply filter_In in Hf.
      destruct Hf as [Hf Hk]. simpl in Hk. apply String.eqb_eq in Hk.
      now subst k.
    + intros [Hin|[Hz _]]; [|discriminate Hz].
      assert (Hf : In (name, oh)
                      (filter (fun e => String.eqb (fst e) name) onhand)).
      { apply filter_In. split; [exact Hin|]. apply String.eqb_refl. }
      rewrite E in Hf. apply in_map_iff. exists (name, oh). auto.
Qed.

End Join.

(** C3, duplicates: a component named twice in the on-hand table comes out
    twice. *)
Lemma component_joined_twice :
  exists d m s,
    compute_results
      [mkComponent "Cap" (Numeric (Fin 1)) "ea"]
      (Some [("Cap", Numeric (Fin 30)); ("Cap", Numeric (Fin 70))])
      (Fin 10) = inr (d, m, s) /\
    length (filter (fun r => String.eqb (Component r) "Cap") d) = 2%nat.
Proof.
  do 3 eexists. split; vm_compute; reflexivity.
Qed.

(** C3, as the code has it: when no name occurs twice in the on-hand table,
    the rows [compute_results] returns are, up to their order, one row per
    component, whose [On_Hand] is the quantity of the component's entry and 0
    when it has none or when there is no on-hand table. *)
Theorem join_complete
    (components : list component) (onhand_df : option (list onhand_entry))
    (cases_sold : num) (d s : list row) (m : Z) :
  unique_names onhand_df ->
  compute_results components onhand_df cases_sold = inr (d, m, s) ->
  Permutation d (map (lookup_row onhand_df cases_sold) components) /\
  length d = length components.
Proof.
  intros Hu H. apply compute_results_inv in H. destruct H as (-> & _ & _).
  rewrite (frame_unique _ _ _ Hu).
  split; [apply sort_values_perm|].
  rewrite (Permutation_length (sort_values_perm _)). apply length_map.
Qed.

Lemma join_complete_witness :
  unique_names missing_onhand /\
  exists d m s,
    compute_results scenario_components missing_onhand (Fin 2)
    = inr (d, m, s) /\
    Permutation d (map (lookup_row missing_onhand (Fin 2)) scenario_components) /\
    length d = length scenario_components /\
    exists r, In r d /\ Component r = "X" /\ On_Hand r = zero.
Proof.
  assert (Hu : unique_names missing_onhand).
  { simpl. constructor; [intros []| constructor]. }
  split; [exact Hu|].
  destruct (compute_results scenario_components missing_onhand (Fin 2))
    as [e|[[d m] s]] eqn:Hout; [vm_compute in Hout; discriminate Hout|].
  exists d, m, s. split; [reflexivity|].
  destruct (join_complete scenario_components missing_onhand (Fin 2) d s m
              Hu Hout) as [Hperm Hlen].
  split; [exact Hperm|]. split; [exact Hlen|].
  exists (lookup_row missing_onhand (Fin 2)
            (mkComponent "X" (Numeric (Fin 2)) "kg")).
  split; [|split; reflexivity].
  apply (Permutation_in _ (Permutation_sym Hperm)). left. reflexivity.
Defined.

(** C4, duplicates: with two on-hand entries for one component the rows
    returned are two, one with each quantity: the last entry does not
    replace the first. *)
Lemma duplicate_entries_two_rows :
  exists d m s,
    compute_results
      [mkComponent "Cap" (Numeric (Fin 1)) "ea"]
      (Some [("Cap", Numeric (Fin 30)); ("Cap", Numeric (Fin 70))])
      (Fin 10) = inr (d, m, s) /\
    length d = 2%nat /\
    (exists r, In r d /\ On_Hand r = Fin 30) /\
    (exists r, In r d /\ On_Hand r = Fin 70).
Proof.
  do 3 eexists. split; [vm_compute; reflexivity|]. split; [reflexivity|]. split.
  - eexists. split; [left; reflexivity | reflexivity].
  - eexists. split; [right; left; reflexivity | reflexivity].
Qed.

(** C4, as the code has it: the rows [compute_results] returns are, for each
    component, one row per on-hand entry of its name, carrying that entry's
    own quantity, and one row with [On_Hand] 0 for a component without
    entry; there is no other row, and their number counts, for each
    component, its entries (one when it has none). *)
Theorem duplicate_entries_all_kept
    (components : list component) (onhand : list onhand_entry)
    (cases_sold : num) (d s : list row) (m : Z) :
  compute_results components (Some onhand) cases_sold = inr (d, m, s) ->
  (forall c oh, In c components -> In (c_name c, oh) onhand ->
                In (make_row cases_sold c oh) d /\
                On_Hand (make_row cases_sold c oh) = coerce oh) /\
  (forall c, In c components -> entries_named onhand (c_name c) = 0%nat ->
             In (make_row cases_sold c (Numeric NaN)) d /\
             On_Hand (make_row cases_sold c (Numeric NaN)) = zero) /\
  (forall r, In r d ->
             exists c, In c components /\
               ((exists oh, In (c_name c, oh) onhand /\
                            r = make_row cases_sold c oh) \/
                (entries_named onhand (c_name c) = 0%nat /\
                 r = make_row cases_sold c (Numeric NaN)))) /\
  length d
  = list_sum (map (fun c => Nat.max 1 (entries_named onhand (c_name c)))
                  components).
Proof.
  intro H. apply compute_results_inv in H. destruct H as (-> & _ & _).
  split; [|split; [|split]].
  - intros c oh Hc Hoh. split; [|reflexivity].
    apply sort_values_In, frame_In.
    exists c, oh. repeat split; auto.
    simpl. apply matching_cells_cases. now left.
  - intros c Hc Hz. split; [|reflexivity].
    apply sort_values_In, frame_In.
    exists c, (Numeric NaN). repeat split; auto.
    simpl. apply matching_cells_cases. right. auto.
  - intros r Hr. apply (proj1 (sort_values_In _ _)) in Hr.
    apply frame_In in Hr. destruct Hr as (c & oh & Hc & Hoh & ->).
    exists c. split; [exact Hc|].
    simpl in Hoh. apply matching_cells_cases in Hoh.
    destruct Hoh as [Hin|[Hz ->]]; [left; eauto | right; auto].
  - rewrite (Permutation_length (sort_values_perm _)). apply frame_length.
Qed.

Lemma duplicate_entries_all_kept_witness :
  exists d m s,
    compute_results duplicate_components (Some duplicate_onhand) (Fin 10)
    = inr (d, m, s) /\
    In (make_row (Fin 10) (mkComponent "Cap" (Numeric (Fin 1)) "ea")
                 (Numeric (Fin 30))) d /\
    In (make_row (Fin 10) (mkComponent "Cap" (Numeric (Fin 1)) "ea")
                 (Numeric (Fin 70))) d /\
    length d = 2%nat.
Proof.
  destruct (compute_results duplicate_components (Some duplicate_onhand) (Fin 10))
    as [e|[[d m] s]] eqn:Hout; [vm_compute in Hout; discriminate Hout|].
  exists d, m, s. split; [reflexivity|].
  destruct (duplicate_entries_all_kept duplicate_components duplicate_onhand
              (Fin 10) d s m Hout) as (Hin & _ & _ & Hlen).
  split; [|split].
  - apply Hin; simpl; auto.
  - apply Hin; simpl; auto.
  - exact Hlen.
Defined.

(** ** Values that do not read as numbers *)

Section Coercion.

Lemma coerce_zero_unreadable (c : cell) : coerce (zero_unreadable c) = coerce c.
Proof. destruct c as [[| | |]|]; reflexivity. Qed.

Lemma make_row_zero_unreadable (n : num) (c : component) (oh : cell) :
  make_row n (zero_unreadable_component c) (zero_unreadable oh)
  = make_row n c oh.
Proof.
  unfold make_row. simpl. now rewrite !coerce_zero_unreadable.
Qed.

Lemma filter_map_fst (name : string) (onhand : list onhand_entry) :
  filter (fun e => String.eqb (fst e) name)
         (map (fun e => (fst e, zero_unreadable (snd e))) onhand)
  = map (fun e => (fst e, zero_unreadable (snd e)))
        (filter (fun e => String.eqb (fst e) name) onhand).
Proof.
  induction onhand as [|[k v] t IH]; simpl; [reflexivity|].
  destruct (String.eqb k name); simpl; now rewrite IH.
Qed.

Lemma rows_zero_unreadable (n : num) (c : component)
    (onhand_df : option (list onhand_entry)) :
  map (make_row n (zero_unreadable_component c))
      (on_hand_cells (zero_unreadable_onhand onhand_df) (c_name c))
  = map (make_row n c) (on_hand_cells onhand_df (c_name c)).
Proof.
  destruct onhand_df as [onhand|]; simpl.
  - unfold matching_cells. rewrite filter_map_fst.
    destruct (filter (fun e => String.eqb (fst e) (c_name c)) onhand)
      as [|e ms]; simpl.
    + f_equal. unfold make_row. simpl. now rewrite coerce_zero_unreadable.
    + rewrite make_row_zero_unreadable. f_equal.
      rewrite !map_map. apply map_ext. intro a.
      apply make_row_zero_unreadable.
  - f_equal. unfold make_row. simpl. now rewrite coerce_zero_unreadable.
Qed.

Lemma frame_zero_unreadable (components : list component)
    (onhand_df : option (list onhand_entry)) (n : num) :
  frame (map zero_unreadable_component components)
        (zero_unreadable_onhand onhand_df) n
  = frame components onhand_df n.
Proof.
  rewrite !frame_flat_map.
  induction components as [|c l IH]; simpl; [reflexivity|].
  rewrite IH. f_equal.
  exact (rows_zero_unreadable n c onhand_df).
Qed.

End Coercion.

(** C5, infinities: an on-hand quantity that reads as [+inf] is not replaced
    by 0, and the call raises; with 0 in its place the call returns. *)
Lemma infinite_on_hand_raises :
  compute_results
    [mkComponent "Cap" (Numeric (Fin 1)) "ea"]
    (Some [("Cap", Numeric PInf)])
    (Fin 10) = inl OverflowError /\
  exists out,
    compute_results
      [mkComponent "Cap" (Numeric (Fin 1)) "ea"]
      (Some [("Cap", Numeric (Fin 0))])
      (Fin 10) = inr out.
Proof.
  split; [vm_compute; reflexivity|]. eexists. vm_compute. reflexivity.
Qed.

(** C5, as the code has it: a per-case rate or on-hand quantity that is
    blank (NaN) or is not a number counts as 0, that is, [compute_results]
    does on the tables what it does on the tables with 0 written in those
    cells, raising when and only when it raises there.  Every other value,
    the infinities included, is used as it is: the columns [Per_Case] and
    [On_Hand] of the working frame hold the coerced cells, and [Required]
    and [Remaining] are computed from them. *)
Theorem unreadable_counts_as_zero
    (components : list component) (onhand_df : option (list onhand_entry))
    (cases_sold : num) :
  compute_results (map zero_unreadable_component components)
                  (zero_unreadable_onhand onhand_df) cases_sold
  = compute_results components onhand_df cases_sold /\
  compute_locals (map zero_unreadable_component components)
                 (zero_unreadable_onhand onhand_df) cases_sold
  = compute_locals components onhand_df cases_sold /\
  (coerce NonNumeric = zero /\ coerce (Numeric NaN) = zero /\
   forall x, is_nan x = false -> coerce (Numeric x) = x) /\
  (forall r, In r (frame components onhand_df cases_sold) ->
     exists c oh,
       In c components /\ In oh (on_hand_cells onhand_df (c_name c)) /\
       Per_Case r = coerce (c_per_case c) /\ On_Hand r = coerce oh /\
       Required r = mul (Per_Case r) cases_sold /\
       Remaining r = sub (On_Hand r) (Required r)).
Proof.
  assert (Hl : compute_locals (map zero_unreadable_component components)
                 (zero_unreadable_onhand onhand_df) cases_sold
               = compute_locals components onhand_df cases_sold).
  { unfold compute_locals. now rewrite frame_zero_unreadable. }
  split; [|split; [|split]].
  - unfold compute_results. now rewrite Hl.
  - exact Hl.
  - split; [reflexivity|]. split; [reflexivity|].
    intros x Hx. now destruct x.
  - intros r Hr. apply frame_In in Hr. destruct Hr as (c & oh & Hc & Hoh & ->).
    exists c, oh. repeat split; assumption.
Qed.

Lemma unreadable_counts_as_zero_witness :
  exists out,
    compute_results unreadable_components unreadable_onhand (Fin 10) = inr out /\
    compute_results
      [mkComponent "Cap" (Numeric (Fin 0)) "ea";
       mkComponent "Bottle" (Numeric (Fin 2)) "ea"]
      (Some [("Cap", Numeric (Fin 30)); ("Bottle", Numeric (Fin 0))])
      (Fin 10) = inr out.
Proof.
  destruct (unreadable_counts_as_zero unreadable_components unreadable_onhand
              (Fin 10)) as (Heq & _).
  destruct (compute_results unreadable_components unreadable_onhand (Fin 10))
    as [e|out] eqn:Hout; [vm_compute in Hout; discriminate Hout|].
  exists out. split; [reflexivity|].
  exact Heq.
Defined.

(** ** Components without a per-case rate *)

Section NoRate.

Lemma min2_PInf_l (x : num) : is_nan x = false -> min2 PInf x = x.
Proof. destruct x; simpl; try reflexivity. discriminate. Qed.

Lemma min2_PInf_r (m : num) : min2 m PInf = m.
Proof. unfold min2. now rewrite ltb_PInf_l. Qed.

Lemma fold_min2_all_PInf (l : list num) :
  forallb is_nan l = true -> min_from_inf l = PInf.
Proof.
  unfold min_from_inf. induction l as [|x l IH]; simpl; [reflexivity|].
  rewrite andb_true_iff. intros [Hx Hl]. destruct x; try discriminate.
  simpl. rewrite min2_PInf_r. now apply IH.
Qed.

Lemma series_min_Fin_iff (col : list num) (q : Q) :
  series_min col = Fin q <-> min_from_inf col = Fin q.
Proof.
  unfold series_min. destruct (forallb is_nan col) eqn:Hall.
  - rewrite (fold_min2_all_PInf col Hall). split; discriminate.
  - unfold min_from_inf. destruct col as [|x t]; [discriminate|].
    simpl. rewrite (min2_PInf_l _ (fill_inf_not_nan x)). reflexivity.
Qed.

Lemma eligible_not_zero_rate (r : row) :
  eligible r = true -> zero_rate_row r = false.
Proof.
  unfold eligible, zero_rate_row, gtb, zero.
  destruct (Per_Case r); simpl; try easy.
  intro H. apply Qltb_lt in H. apply Qeqb_neq. intro Hz.
  rewrite Hz in H. exact (Qlt_irrefl _ H).
Qed.

Lemma min_from_inf_filter (df : list row) :
  min_from_inf (ratio_col (filter (fun r => negb (zero_rate_row r)) df))
  = min_from_inf (ratio_col df).
Proof.
  unfold min_from_inf, ratio_col, df_apply. simpl fst.
  assert (H : forall acc,
             fold_left min2
               (map fill_inf
                  (map (fun r => fst (max_cases_lambda r))
                     (filter (fun r => negb (zero_rate_row r)) df))) acc
             = fold_left min2
                 (map fill_inf (map (fun r => fst (max_cases_lambda r)) df)) acc);
    [|apply H].
  induction df as [|r df IH]; intro acc; [reflexivity|].
  simpl. destruct (zero_rate_row r) eqn:E; simpl.
  - assert (Hne : eligible r = false).
    { destruct (eligible r) eqn:El; [|reflexivity].
      apply eligible_not_zero_rate in El. congruence. }
    rewrite (lambda_not_eligible r Hne). simpl.
    rewrite min2_PInf_r. apply IH.
  - apply IH.
Qed.

Lemma candidates_filter (df : list row) :
  filter eligible (filter (fun r => negb (zero_rate_row r)) df)
  = filter eligible df.
Proof.
  induction df as [|r df IH]; simpl; [reflexivity|].
  destruct (zero_rate_row r) eqn:E; simpl.
  - destruct (eligible r) eqn:El; [|exact IH].
    apply eligible_not_zero_rate in El. congruence.
  - now rewrite IH.
Qed.

Lemma floor_of_bottleneck_Fin (df : list row) (q : Q) :
  filter eligible df <> [] ->
  series_min (ratio_col df) = Fin q ->
  floor_of (bottleneck_of df) = Some (Qfloor q).
Proof.
  intros Hc Hm.
  destruct (bottleneck_of_min df q Hc Hm) as (? & ? & ? & _ & _ & _ & -> & _).
  reflexivity.
Qed.

Lemma floor_of_bottleneck_raise (df : list row) :
  filter eligible df <> [] ->
  (forall q, series_min (ratio_col df) <> Fin q) ->
  floor_of (bottleneck_of df) = None.
Proof.
  intros Hc Hm. rewrite (bottleneck_of_candidates df Hc).
  destruct (series_min (ratio_col df)) as [q| | |]; try reflexivity.
  now destruct (Hm q).
Qed.

(** Rows whose rate is 0 do not change the floor of the minimum. *)
Lemma floor_of_bottleneck_filter (df : list row) :
  floor_of (bottleneck_of (filter (fun r => negb (zero_rate_row r)) df))
  = floor_of (bottleneck_of df).
Proof.
  set (df' := filter (fun r => negb (zero_rate_row r)) df).
  destruct (filter eligible df) as [|r0 rest] eqn:E.
  - rewrite (bottleneck_of_no_candidate df E).
    rewrite (bottleneck_of_no_candidate df'); [reflexivity|].
    unfold df'. now rewrite candidates_filter.
  - assert (Hc : filter eligible df <> []) by (rewrite E; discriminate).
    assert (Hc' : filter eligible df' <> [])
      by (unfold df'; now rewrite candidates_filter).
    assert (Hiff : forall q, series_min (ratio_col df') = Fin q <->
                             series_min (ratio_col df) = Fin q).
    { intro q. rewrite !series_min_Fin_iff. unfold df'.
      now rewrite min_from_inf_filter. }
    destruct (series_min (ratio_col df)) as [q| | |] eqn:Hm.
    + rewrite (floor_of_bottleneck_Fin df q Hc Hm).
      apply floor_of_bottleneck_Fin; [exact Hc'|]. now apply Hiff.
    + rewrite (floor_of_bottleneck_raise df Hc) by (rewrite Hm; discriminate).
      apply floor_of_bottleneck_raise; [exact Hc'|].
      intros q Hq. apply Hiff in Hq. discriminate.
    + rewrite (floor_of_bottleneck_raise df Hc) by (rewrite Hm; discriminate).
      apply floor_of_bottleneck_raise; [exact Hc'|].
      intros q Hq. apply Hiff in Hq. discriminate.
    + rewrite (floor_of_bottleneck_raise df Hc) by (rewrite Hm; discriminate).
      apply floor_of_bottleneck_raise; [exact Hc'|].
      intros q Hq. apply Hiff in Hq. discriminate.
Qed.

Lemma frame_filter_zero_rate (components : list component)
    (onhand_df : option (list onhand_entry)) (n : num) :
  frame (filter (fun c => negb (zero_rate c)) components) onhand_df n
  = filter (fun r => negb (zero_rate_row r)) (frame components onhand_df n).
Proof.
  rewrite !frame_flat_map.
  induction components as [|c l IH]; simpl; [reflexivity|].
  rewrite filter_app, <- IH.
  assert (Hrows : forall cells,
             filter (fun r => negb (zero_rate_row r)) (map (make_row n c) cells)
             = if zero_rate c then [] else map (make_row n c) cells).
  { induction cells as [|oh cells IHc]; simpl.
    - now destruct (zero_rate c).
    - rewrite IHc. unfold zero_rate_row at 1. simpl.
      fold (zero_rate c). now destruct (zero_rate c). }
  rewrite Hrows. now destruct (zero_rate c).
Qed.

Lemma max_sellable_of_floor (components : list component)
    (onhand_df : option (list onhand_entry)) (n : num) :
  max_sellable_of (compute_results components onhand_df n)
  = floor_of (bottleneck_of (frame components onhand_df n)).
Proof.
  unfold compute_results, compute_locals.
  now destruct (bottleneck_of _) as [e|[[z ob] log]].
Qed.

(** What a reported bottleneck is. *)
Lemma bottleneck_of_some (df : list row) (z : Z) (b : bottleneck_info)
    (log : divlog) :
  bottleneck_of df = inr (z, Some b, log) ->
  exists pre r suf q,
    df = pre ++ r :: suf /\
    eligible r = true /\
    div (On_Hand r) (Per_Case r) = Fin q /\
    z = Qfloor q /\ b = info_of r (Fin q).
Proof.
  intro H. destruct (filter eligible df) as [|r0 rest] eqn:E.
  - rewrite (bottleneck_of_no_candidate df E) in H. discriminate.
  - assert (Hc : filter eligible df <> []) by (rewrite E; discriminate).
    destruct (series_min (ratio_col df)) as [q| | |] eqn:Hm;
      try (rewrite (bottleneck_of_candidates df Hc), Hm in H; discriminate).
    destruct (bottleneck_of_min df q Hc Hm)
      as (pre & r & suf & Hdf & Hel & Hdiv & Hb & _).
    rewrite Hb in H. inversion H; subst z b log.
    exists pre, r, suf, q. auto.
Qed.

End NoRate.

(** C6: when no component has a positive per-case rate, whatever the order
    size and the on-hand table, [compute_results] returns a maximum of 0 and
    its [bottleneck] is [None]; in every run that ends, a reported bottleneck
    is a component whose rate is positive, never 0; a row whose rate is 0
    gets [+inf] in the column [MaxCasesByItem] without a division, and
    removing the components whose rate is 0 changes neither the maximum nor
    whether the call returns. *)
Theorem no_rate_no_bottleneck
    (components : list component) (onhand_df : option (list onhand_entry))
    (cases_sold : num) :
  (has_rate components = false ->
   exists st,
     compute_locals components onhand_df cases_sold = inr st /\
     max_sellable st = 0%Z /\ bottleneck st = None /\
     compute_results components onhand_df cases_sold
     = inr (display st, 0%Z, shortages st)) /\
  (forall st b,
      compute_locals components onhand_df cases_sold = inr st ->
      bottleneck st = Some b ->
      exists c, In c components /\ b_Item b = c_name c /\
                b_Per_Case b = coerce (c_per_case c) /\
                zero_rate c = false /\ lt zero (b_Per_Case b)) /\
  (forall r, In r (frame components onhand_df cases_sold) ->
             eqb (Per_Case r) zero = true ->
             max_cases_lambda r = (PInf, [])) /\
  max_sellable_of
    (compute_results (filter (fun c => negb (zero_rate c)) components)
                     onhand_df cases_sold)
  = max_sellable_of (compute_results components onhand_df cases_sold).
Proof.
  split; [|split; [|split]].
  - intro Hno.
    pose proof (bottleneck_of_no_candidate _
                  (candidates_none components onhand_df cases_sold Hno)) as Hb.
    eexists. split; [exact (compute_locals_bottleneck _ _ _ _ _ _ Hb)|].
    simpl. repeat split.
    exact (compute_results_bottleneck _ _ _ _ _ _ Hb).
  - intros st b Hst Hsome. apply compute_locals_inv in Hst.
    destruct Hst as (_ & _ & _ & Hb). rewrite Hsome in Hb.
    apply bottleneck_of_some in Hb.
    destruct Hb as (pre & r & suf & q & Hdf & Hel & _ & _ & ->).
    assert (Hr : In r (frame components onhand_df cases_sold))
      by (rewrite Hdf; apply in_elt).
    apply frame_In in Hr. destruct Hr as (c & oh & Hc & _ & ->).
    exists c. simpl. repeat split; auto.
    apply eligible_not_zero_rate in Hel. exact Hel.
  - intros r _ Hz. apply lambda_not_eligible.
    destruct (eligible r) eqn:El; [|reflexivity].
    apply eligible_not_zero_rate in El. unfold zero_rate_row in El. congruence.
  - rewrite !max_sellable_of_floor, frame_filter_zero_rate.
    apply floor_of_bottleneck_filter.
Qed.

Lemma no_rate_no_bottleneck_witness :
  has_rate no_rate_components = false /\
  (exists st,
     compute_locals no_rate_components (Some []) (Fin 12) = inr st /\
     max_sellable st = 0%Z /\ bottleneck st = None /\
     compute_results no_rate_components (Some []) (Fin 12)
     = inr (display st, 0%Z, shortages st)) /\
  (exists st b c,
     compute_locals scenario_components scenario_onhand (Fin 12) = inr st /\
     bottleneck st = Some b /\
     In c scenario_components /\ b_Item b = c_name c /\
     zero_rate c = false /\ lt zero (b_Per_Case b)).
Proof.
  split; [reflexivity|]. split.
  - exact (proj1 (no_rate_no_bottleneck no_rate_components (Some []) (Fin 12))
             eq_refl).
  - destruct (no_rate_no_bottleneck scenario_components scenario_onhand (Fin 12))
      as (_ & Hsel & _).
    destruct (compute_locals scenario_components scenario_onhand (Fin 12))
      as [e|st] eqn:Hst; [vm_compute in Hst; discriminate Hst|].
    destruct (bottleneck st) as [b|] eqn:Hb.
    + destruct (Hsel st b eq_refl Hb) as (c & Hc & Hi & _ & Hz & Hp).
      exists st, b, c. repeat split; assumption || reflexivity.
    + exfalso. vm_compute in Hst. inversion Hst as [Hst'].
      rewrite <- Hst' in Hb. discriminate Hb.
Defined.

(** ** The reported bottleneck *)

Section FirstMinimum.

Lemma flat_map_split {A B : Type} (f : A -> list B) (l : list A) :
  forall (pre : list B) (x : B) (suf : list B),
    flat_map f l = pre ++ x :: suf ->
    exists l1 c l2 a b,
      l = l1 ++ c :: l2 /\ f c = a ++ x :: b /\
      pre = flat_map f l1 ++ a /\ suf = b ++ flat_map f l2.
Proof.
  induction l as [|c l IH]; intros pre x suf H; simpl in H.
  - now destruct pre.
  - apply app_eq_app in H. destruct H as (l' & [[H1 H2]|[H1 H2]]).
    + destruct l' as [|y l'].
      * rewrite app_nil_r in H1. simpl in H2. symmetry in H2.
        destruct (IH [] x suf H2) as (l1 & c' & l2 & a & b & Hl & Hf & Hp & Hs).
        exists (c :: l1), c', l2, a, b. subst l. repeat split; auto.
        simpl. rewrite <- app_assoc, <- Hp, app_nil_r. now subst pre.
      * simpl in H2. inversion H2; subst y suf.
        exists [], c, l, pre, l'. repeat split; auto.
    + destruct (IH l' x suf H2) as (l1 & c' & l2 & a & b & Hl & Hf & Hp & Hs).
      exists (c :: l1), c', l2, a, b. subst l. repeat split; auto.
      simpl. rewrite <- app_assoc, <- Hp. exact H1.
Qed.

End FirstMinimum.

(** C7, overflow: with the finite cells [2^1023] on hand and 0.5 per case,
    the only quotient is [+inf]; the call raises at line 87 and reports no
    bottleneck, although the component has a positive rate. *)
Lemma finite_cells_no_bottleneck :
  real_tables overflow_components overflow_onhand = true /\
  has_rate overflow_components = true /\
  ratio (make_row (Fin 1) (mkComponent "Resin" (Numeric (Fin (1 # 2))) "kg")
                  (Numeric (Fin (2 ^ 1023)))) = PInf /\
  compute_locals overflow_components overflow_onhand (Fin 1)
  = inl OverflowError /\
  compute_results overflow_components overflow_onhand (Fin 1)
  = inl OverflowError.
Proof. vm_compute. repeat split. Qed.

(** C7, as the code has it: on tables of finite numbers with at least one
    positive per-case rate, when [compute_results] reaches its [return] its
    [bottleneck] is a row of one component [c] of the table; its quotient
    [On_Hand / Per_Case], a binary64 division, is at most that of every row
    whose rate is positive, and strictly below that of every such row of the
    components that come before [c] in the table: among the components whose
    quotient is the least double the first one is reported. *)
Theorem bottleneck_first_minimum
    (components : list component) (onhand_df : option (list onhand_entry))
    (cases_sold : num) (st : locals) :
  real_tables components onhand_df = true ->
  has_rate components = true ->
  compute_locals components onhand_df cases_sold = inr st ->
  exists b before c after r,
    bottleneck st = Some b /\
    components = before ++ c :: after /\
    In r (rows_of onhand_df cases_sold c) /\
    b = info_of r (ratio r) /\
    b_Item b = c_name c /\
    lt zero (Per_Case r) /\
    (forall r', In r' (frame components onhand_df cases_sold) ->
                lt zero (Per_Case r') -> le (ratio r) (ratio r')) /\
    (forall c' r', In c' before -> In r' (rows_of onhand_df cases_sold c') ->
                   lt zero (Per_Case r') -> lt (ratio r) (ratio r')).
Proof.
  intros Hreal Hrate Hst.
  pose proof (frame_real _ _ cases_sold Hreal) as Hrows.
  pose proof (candidates_some components onhand_df cases_sold Hrate) as Hcand.
  apply compute_locals_inv in Hst. destruct Hst as (_ & _ & _ & Hb).
  destruct (bottleneck_of_inv _ _ _ _ Hcand Hb)
    as (pre & r & suf & q & Hdf & Hel & Hdiv & _ & Hob & Hpre & Hsuf).
  pose proof Hdf as Hsplit. rewrite frame_flat_map in Hsplit.
  apply flat_map_split in Hsplit.
  destruct Hsplit as (before & c & after & a & b' & HC & Hfc & Hp & Hs).
  rewrite Forall_forall in Hrows.
  assert (Hrin : In r (rows_of onhand_df cases_sold c)).
  { unfold rows_of. rewrite Hfc. apply in_elt. }
  exists (info_of r (Fin q)), before, c, after, r.
  assert (Hrr : ratio r = Fin q) by exact Hdiv.
  rewrite Hrr.
  split; [exact Hob|]. split; [exact HC|]. split; [exact Hrin|].
  split; [reflexivity|]. split.
  { simpl. unfold rows_of in Hrin. apply in_map_iff in Hrin.
    now destruct Hrin as (oh & <- & _). }
  split; [exact Hel|]. split.
  - intros r' Hin Hpos.
    pose proof (ratio_real r' (Hrows _ Hin) Hpos) as Hnan.
    rewrite Hdf in Hin.
    exact (split_least q pre suf r r' Hdiv Hpre Hsuf Hin Hpos Hnan).
  - intros c' r' Hc' Hr' Hpos.
    assert (Hin : In r' pre).
    { rewrite Hp. apply in_or_app. left. apply in_flat_map. exists c'. auto. }
    assert (Hfr : In r' (frame components onhand_df cases_sold))
      by (rewrite Hdf; apply in_or_app; now left).
    pose proof (ratio_real r' (Hrows _ Hfr) Hpos) as Hnan.
    exact (split_first q pre r' Hpre Hin Hpos Hnan).
Qed.

Lemma bottleneck_first_minimum_witness :
  real_tables rounded_components rounded_onhand = true /\
  has_rate rounded_components = true /\
  exists st b before c after r,
    compute_locals rounded_components rounded_onhand (Fin 1) = inr st /\
    bottleneck st = Some b /\
    rounded_components = before ++ c :: after /\
    In r (rows_of rounded_onhand (Fin 1) c) /\
    b = info_of r (ratio r) /\
    b_Item b = c_name c /\
    lt zero (Per_Case r) /\
    (forall r', In r' (frame rounded_components rounded_onhand (Fin 1)) ->
                lt zero (Per_Case r') -> le (ratio r) (ratio r')) /\
    (forall c' r', In c' before -> In r' (rows_of rounded_onhand (Fin 1) c') ->
                   lt zero (Per_Case r') -> lt (ratio r) (ratio r')).
Proof.
  assert (H1 : real_tables rounded_components rounded_onhand = true)
    by (vm_compute; reflexivity).
  assert (H2 : has_rate rounded_components = true)
    by (vm_compute; reflexivity).
  split; [exact H1|]. split; [exact H2|].
  destruct (compute_locals rounded_components rounded_onhand (Fin 1))
    as [e|st] eqn:Hst; [vm_compute in Hst; discriminate Hst|].
  exists st.
  destruct (bottleneck_first_minimum rounded_components rounded_onhand (Fin 1)
              st H1 H2 Hst) as (b & before & c & after & r & H).
  exists b, before, c, after, r. split; [reflexivity | exact H].
Defined.

(** In [tie_components] the tie goes to "Label", the first of the two
    components whose quotient is 5. *)
Example tie_goes_to_first :
  exists st b,
    compute_locals tie_components tie_onhand (Fin 1) = inr st /\
    bottleneck st = Some b /\ b_Item b = "Label".
Proof. do 2 eexists. split; [vm_compute; reflexivity|]. split; reflexivity. Qed.

(** The quotients that are compared are the doubles: in
    [rounded_components], one over the double 0.1 is below ten, yet both
    quotients are the double 10.0 and "B", the first, is reported. *)
Example rounded_tie_goes_to_first :
  exists st b,
    compute_locals rounded_components rounded_onhand (Fin 1) = inr st /\
    bottleneck st = Some b /\ b_Item b = "B" /\
    b_MaxCasesByItem b = Fin 10 /\ max_sellable st = 10%Z.
Proof.
  do 2 eexists. split; [vm_compute; reflexivity|]. repeat split.
Qed.

(** ** The guard of the division *)

Section Guard.

Lemma bottleneck_of_log (df : list row) (z : Z) (ob : option bottleneck_info)
    (log : divlog) :
  bottleneck_of df = inr (z, ob, log) ->
  log = [] \/ log = snd (df_apply df).
Proof.
  intro H. destruct (filter eligible df) as [|r0 rest] eqn:E.
  - rewrite (bottleneck_of_no_candidate df E) in H. inversion H. now left.
  - assert (Hc : filter eligible df <> []) by (rewrite E; discriminate).
    rewrite (bottleneck_of_candidates df Hc) in H. right.
    destruct (math_floor _) as [e|m]; simpl in H; [discriminate|].
    destruct (series_idxmin _) as [e|i]; simpl in H; [discriminate|].
    destruct (nth_error df i); [|discriminate].
    destruct (nth_error (ratio_col df) i); [|discriminate].
    now inversion H.
Qed.

Lemma lambda_log (r : row) (d : num * num) :
  In d (snd (max_cases_lambda r)) ->
  d = (On_Hand r, Per_Case r) /\ eligible r = true.
Proof.
  destruct (eligible r) eqn:E.
  - rewrite (lambda_eligible r E). simpl. intros [<-|[]]. auto.
  - rewrite (lambda_not_eligible r E). intros [].
Qed.

End Guard.

(** C10: every division line 86 performs, in any call, has a divisor that is
    strictly positive, hence not zero; a row whose rate is not positive gets
    [+inf] and no division; and the divisions of a run that ends are among
    those. *)
Theorem division_guarded
    (components : list component) (onhand_df : option (list onhand_entry))
    (cases_sold : num) :
  Forall (fun d => lt zero (snd d) /\ eqb (snd d) zero = false)
         (snd (df_apply (frame components onhand_df cases_sold))) /\
  (forall r, In r (frame components onhand_df cases_sold) ->
             gtb (Per_Case r) zero = false ->
             max_cases_lambda r = (PInf, [])) /\
  (forall st, compute_locals components onhand_df cases_sold = inr st ->
              incl (divisions st)
                   (snd (df_apply (frame components onhand_df cases_sold)))).
Proof.
  split; [|split].
  - apply Forall_forall. intros d Hd. unfold df_apply in Hd. simpl in Hd.
    apply in_flat_map in Hd. destruct Hd as (r & _ & Hd).
    apply lambda_log in Hd. destruct Hd as [-> Hel]. simpl. split.
    + exact Hel.
    + exact (eligible_not_zero_rate r Hel).
  - intros r _ Hng. now apply lambda_not_eligible.
  - intros st Hst. apply compute_locals_inv in Hst.
    destruct Hst as (_ & _ & _ & Hb). apply bottleneck_of_log in Hb.
    destruct Hb as [-> | ->]; [intros x []|apply incl_refl].
Qed.

Lemma division_guarded_witness :
  exists st,
    compute_locals tie_components tie_onhand (Fin 1) = inr st /\
    divisions st = [(Fin 10, Fin 2); (Fin 5, Fin 1)] /\
    Forall (fun d => lt zero (snd d) /\ eqb (snd d) zero = false)
           (divisions st) /\
    max_cases_lambda (make_row (Fin 1) (mkComponent "Idle" (Numeric (Fin 0)) "ea")
                               (Numeric NaN)) = (PInf, []).
Proof.
  destruct (division_guarded tie_components tie_onhand (Fin 1))
    as (Hall & Hinf & Hincl).
  eexists. split; [reflexivity|]. split; [reflexivity|]. split.
  - exact Hall.
  - apply Hinf; [simpl; auto | reflexivity].
Defined.

(* ================================================================== *)
(** * Further properties of [compute_results] *)

(** ** The order of the returned rows *)

Section Sorted.

Lemma insert_row_sorted (r : row) (l : list row) :
  Sorted name_le l -> Sorted name_le (insert_row r l).
Proof.
  induction l as [|h t IH]; intro Hs; simpl.
  - repeat constructor.
  - destruct (String.leb (Component r) (Component h)) eqn:E.
    + constructor; [exact Hs|]. constructor. exact E.
    + inversion Hs as [|? ? Ht Hhd]; subst.
      constructor; [now apply IH|].
      assert (Hhr : name_le h r).
      { destruct (String.leb_total (Component r) (Component h)) as [H|H];
          [congruence | exact H]. }
      destruct t as [|h' t']; simpl.
      * constructor. exact Hhr.
      * destruct (String.leb (Component r) (Component h')).
        -- constructor. exact Hhr.
        -- constructor. now inversion Hhd.
Qed.

Lemma sort_values_sorted (l : list row) : Sorted name_le (sort_values l).
Proof.
  induction l as [|h t IH]; simpl; [constructor|].
  now apply insert_row_sorted.
Qed.

End Sorted.

(** X1: the rows [compute_results] returns are in ascending order of the
    component name, they are the rows of the working frame in another order,
    and every shortage is one of them. *)
Theorem display_sorted_by_name
    (components : list component) (onhand_df : option (list onhand_entry))
    (cases_sold : num) (d s : list row) (m : Z) :
  compute_results components onhand_df cases_sold = inr (d, m, s) ->
  Sorted name_le d /\
  Permutation d (frame components onhand_df cases_sold) /\
  (forall r, In r s -> In r d /\ lt (Remaining r) zero).
Proof.
  intro H. apply compute_results_inv in H. destruct H as (-> & -> & _).
  split; [apply sort_values_sorted|]. split; [apply sort_values_perm|].
  intros r Hr. apply filter_In in Hr. destruct Hr as [Hin Hlt].
  split; [now apply sort_values_In | exact Hlt].
Qed.

Lemma display_sorted_by_name_witness :
  exists d m s,
    compute_results tie_components tie_onhand (Fin 6) = inr (d, m, s) /\
    Sorted name_le d /\
    Permutation d (frame tie_components tie_onhand (Fin 6)) /\
    (forall r, In r s -> In r d /\ lt (Remaining r) zero).
Proof.
  do 3 eexists. split; [reflexivity|].
  exact (display_sorted_by_name tie_components tie_onhand (Fin 6) _ _ _ eq_refl).
Defined.

(** ** The maximum does not depend on the order size *)

Section OrderSize.

Lemma eligible_core (r : row) : eligible (core r) = eligible r.
Proof. reflexivity. Qed.

Lemma filter_eligible_core (df : list row) :
  filter eligible (map core df) = map core (filter eligible df).
Proof.
  induction df as [|r df IH]; simpl; [reflexivity|].
  rewrite eligible_core. destruct (eligible r); simpl; now rewrite IH.
Qed.

Lemma df_apply_core (df : list row) : df_apply (map core df) = df_apply df.
Proof.
  unfold df_apply. rewrite map_map, flat_map_concat_map, map_map,
    <- flat_map_concat_map. reflexivity.
Qed.

(** The bottleneck block reads four columns only. *)
Lemma bottleneck_of_core (df : list row) :
  bottleneck_of (map core df) = bottleneck_of df.
Proof.
  destruct (filter eligible df) as [|r0 rest] eqn:E.
  - rewrite (bottleneck_of_no_candidate df E).
    apply bottleneck_of_no_candidate. now rewrite filter_eligible_core, E.
  - assert (Hc : filter eligible df <> []) by (rewrite E; discriminate).
    assert (Hc' : filter eligible (map core df) <> [])
      by (rewrite filter_eligible_core, E; discriminate).
    rewrite (bottleneck_of_candidates _ Hc), (bottleneck_of_candidates _ Hc').
    unfold ratio_col. rewrite df_apply_core.
    destruct (math_floor _) as [e|z]; [reflexivity|]. simpl.
    destruct (series_idxmin _) as [e|i]; [reflexivity|]. simpl.
    rewrite nth_error_map. destruct (nth_error df i) as [r|]; reflexivity.
Qed.

Lemma frame_core (components : list component)
    (onhand_df : option (list onhand_entry)) (n1 n2 : num) :
  map core (frame components onhand_df n1)
  = map core (frame components onhand_df n2).
Proof. unfold frame. rewrite !map_map. reflexivity. Qed.

Lemma bottleneck_of_order_size (components : list component)
    (onhand_df : option (list onhand_entry)) (n1 n2 : num) :
  bottleneck_of (frame components onhand_df n1)
  = bottleneck_of (frame components onhand_df n2).
Proof.
  rewrite <- (bottleneck_of_core (frame components onhand_df n1)),
          <- (bottleneck_of_core (frame components onhand_df n2)).
  now rewrite (frame_core components onhand_df n1 n2).
Qed.

End OrderSize.

(** X2: the maximum of sellable cases, the bottleneck and whether the call
    raises are the same for every order size: two calls on the same tables
    return the same maximum, or raise the same exception. *)
Theorem max_sellable_ignores_order_size
    (components : list component) (onhand_df : option (list onhand_entry))
    (n1 n2 : num) :
  max_sellable_of (compute_results components onhand_df n1)
  = max_sellable_of (compute_results components onhand_df n2) /\
  (forall e, compute_results components onhand_df n1 = inl e <->
             compute_results components onhand_df n2 = inl e) /\
  (forall st1 st2,
      compute_locals components onhand_df n1 = inr st1 ->
      compute_locals components onhand_df n2 = inr st2 ->
      max_sellable st1 = max_sellable st2 /\ bottleneck st1 = bottleneck st2).
Proof.
  pose proof (bottleneck_of_order_size components onhand_df n1 n2) as Hb.
  split; [|split].
  - rewrite !max_sellable_of_floor. now rewrite Hb.
  - intro e. unfold compute_results, compute_locals. rewrite Hb.
    destruct (bottleneck_of (frame components onhand_df n2))
      as [e'|[[z ob] log]]; cbv [bind ret];
      split; intro H; (exact H || discriminate H).
  - intros st1 st2 H1 H2. apply compute_locals_inv in H1, H2.
    destruct H1 as (_ & _ & _ & H1), H2 as (_ & _ & _ & H2).
    rewrite Hb, H2 in H1. inversion H1. auto.
Qed.

Lemma max_sellable_ignores_order_size_witness :
  exists st1 st2,
    compute_locals tie_components tie_onhand (Fin 1) = inr st1 /\
    compute_locals tie_components tie_onhand (Fin 9) = inr st2 /\
    max_sellable st1 = max_sellable st2 /\ bottleneck st1 = bottleneck st2.
Proof.
  do 2 eexists. split; [reflexivity|]. split; [reflexivity|].
  exact (proj2 (proj2 (max_sellable_ignores_order_size tie_components
                         tie_onhand (Fin 1) (Fin 9))) _ _ eq_refl eq_refl).
Defined.

(** ** When every quotient is infinite *)

Section Raises.

Lemma ratio_col_all_PInf (df : list row) :
  (forall r, In r df -> eligible r = true -> ratio r = PInf) ->
  Forall (fun x => x = PInf) (ratio_col df).
Proof.
  intro H. unfold ratio_col, df_apply. simpl fst.
  apply Forall_forall. intros x Hx.
  apply in_map_iff in Hx. destruct Hx as (r & <- & Hr).
  destruct (eligible r) eqn:E.
  - rewrite (lambda_ratio r E). now apply H.
  - now rewrite (lambda_not_eligible r E).
Qed.

End Raises.

(** X5: when some component has a positive per-case rate and the quotient
    [On_Hand / Per_Case] of every row with a positive rate is [+inf],
    [compute_results] raises the [OverflowError] of [math.floor] on line 87.
    The quotient is [+inf] for an infinite on-hand quantity, and also for
    finite cells whose quotient is too large for a double. *)
Theorem infinite_quotients_raise
    (components : list component) (onhand_df : option (list onhand_entry))
    (cases_sold : num) :
  has_rate components = true ->
  (forall r, In r (frame components onhand_df cases_sold) ->
             eligible r = true -> ratio r = PInf) ->
  compute_locals components onhand_df cases_sold = inl OverflowError /\
  compute_results components onhand_df cases_sold = inl OverflowError.
Proof.
  intros Hrate Hinf.
  pose proof (candidates_some components onhand_df cases_sold Hrate) as Hcand.
  assert (Hne : ratio_col (frame components onhand_df cases_sold) <> []).
  { unfold ratio_col, df_apply. simpl fst.
    destruct (frame components onhand_df cases_sold); [|discriminate].
    now destruct Hcand. }
  assert (Hb : bottleneck_of (frame components onhand_df cases_sold)
               = inl OverflowError).
  { rewrite (bottleneck_of_candidates _ Hcand).
    rewrite (series_min_all_PInf _ Hne (ratio_col_all_PInf _ Hinf)).
    reflexivity. }
  assert (Hl : compute_locals components onhand_df cases_sold
               = inl OverflowError)
    by (unfold compute_locals; now rewrite Hb).
  split; [exact Hl|]. unfold compute_results. now rewrite Hl.
Qed.

Lemma infinite_quotients_raise_witness :
  has_rate overflow_components = true /\
  real_tables overflow_components overflow_onhand = true /\
  (forall r, In r (frame overflow_components overflow_onhand (Fin 3)) ->
             eligible r = true -> ratio r = PInf) /\
  compute_locals overflow_components overflow_onhand (Fin 3)
  = inl OverflowError /\
  compute_results overflow_components overflow_onhand (Fin 3)
  = inl OverflowError.
Proof.
  assert (H1 : has_rate overflow_components = true) by reflexivity.
  assert (H2 : forall r,
             In r (frame overflow_components overflow_onhand (Fin 3)) ->
             eligible r = true -> ratio r = PInf).
  { intros r Hin _. apply frame_In in Hin.
    destruct Hin as (c & oh & Hc & Hoh & ->).
    destruct Hc as [<-|[]]. vm_compute in Hoh. destruct Hoh as [<-|[]].
    vm_compute. reflexivity. }
  split; [exact H1|]. split; [reflexivity|]. split; [exact H2|].
  exact (infinite_quotients_raise overflow_components overflow_onhand (Fin 3)
           H1 H2).
Defined.

(** ** Without an on-hand table *)

Section NoOnHand.

(** Nothing on hand allows no case, whatever the positive rate. *)
Lemma ratio_zero_on_hand (r : row) :
  On_Hand r = zero -> eligible r = true -> ratio r = Fin 0.
Proof.
  unfold ratio, eligible, gtb, zero. intros -> He.
  destruct (Per_Case r) as [p| | |]; simpl in He; try discriminate.
  - apply Qltb_lt in He. simpl.
    assert (Hn : Qeqb p 0 = false).
    { apply Qeqb_neq. intro Hz. rewrite Hz in He. exact (Qlt_irrefl _ He). }
    rewrite Hn. apply round64_zero. unfold Qdiv. ring.
  - reflexivity.
Qed.

End NoOnHand.

(** X6: when [compute_results] gets no on-hand table ([onhand_df is None]),
    whatever the per-case rates and the order size, it returns rows whose
    on-hand quantity is 0 and a maximum of 0 sellable cases. *)
Theorem no_onhand_table
    (components : list component) (cases_sold : num) :
  exists d s,
    compute_results components None cases_sold = inr (d, 0%Z, s) /\
    Forall (fun r => On_Hand r = zero) d.
Proof.
  assert (Hoh : forall r, In r (frame components None cases_sold) ->
                          On_Hand r = zero).
  { intros r Hr. apply frame_In in Hr.
    destruct Hr as (c & oh & _ & Hoh & ->). simpl in Hoh.
    destruct Hoh as [<-|[]]. reflexivity. }
  assert (Hres : compute_results components None cases_sold
                 = inr (sort_values (frame components None cases_sold), 0%Z,
                        filter shortage (frame components None cases_sold))).
  { destruct (has_rate components) eqn:Hrate.
    - pose proof (candidates_some components None cases_sold Hrate) as Hcand.
      assert (Hfin : Forall (fun r => eligible r = true ->
                                      is_finite (ratio r) = true)
                            (frame components None cases_sold)).
      { apply Forall_forall. intros r Hr Hel.
        now rewrite (ratio_zero_on_hand r (Hoh r Hr) Hel). }
      destruct (series_min_finite _ Hfin Hcand) as [q Hq].
      destruct (bottleneck_of_min _ q Hcand Hq)
        as (pre & r & suf & Hdf & Hel & Hdiv & Hb & _).
      rewrite (compute_results_bottleneck _ _ _ _ _ _ Hb).
      assert (Hr : In r (frame components None cases_sold))
        by (rewrite Hdf; apply in_elt).
      pose proof (ratio_zero_on_hand r (Hoh r Hr) Hel) as Hz.
      unfold ratio in Hz. rewrite Hdiv in Hz. inversion Hz. reflexivity.
    - exact (compute_results_bottleneck _ _ _ _ _ _
               (bottleneck_of_no_candidate _
                  (candidates_none components None cases_sold Hrate))). }
  do 2 eexists. split; [exact Hres|].
  apply Forall_forall. intros r Hr.
  apply Hoh. now apply sort_values_In.
Qed.

Lemma no_onhand_table_witness :
  exists d s,
    compute_results scenario_components None (Fin 3) = inr (d, 0%Z, s) /\
    Forall (fun r => On_Hand r = zero) d /\
    length d = 2%nat /\ length s = 2%nat.
Proof.
  destruct (no_onhand_table scenario_components (Fin 3))
    as (d & s & Hres & Hall).
  exists d, s. split; [exact Hres|]. split; [exact Hall|].
  assert (E : compute_results scenario_components None (Fin 3)
              = inr (d, 0%Z, s)) by exact Hres.
  vm_compute in E. inversion E. split; reflexivity.
Defined.

(** ** On-hand entries of unknown names *)

Section Unknown.

Lemma filter_filter_known (components : list component)
    (onhand : list onhand_entry) (c : component) :
  In c components ->
  filter (fun e => String.eqb (fst e) (c_name c))
         (filter (known_entry components) onhand)
  = filter (fun e => String.eqb (fst e) (c_name c)) onhand.
Proof.
  intro Hc. induction onhand as [|e t IH]; simpl; [reflexivity|].
  destruct (String.eqb (fst e) (c_name c)) eqn:E.
  - assert (Hk : known_entry components e = true).
    { apply existsb_exists. exists c. auto. }
    rewrite Hk. simpl. rewrite E. now rewrite IH.
  - destruct (known_entry components e); simpl; [rewrite E|]; exact IH.
Qed.

Lemma flat_map_ext_In {A B : Type} (f g : A -> list B) (l : list A) :
  (forall x, In x l -> f x = g x) -> flat_map f l = flat_map g l.
Proof.
  induction l as [|x l IH]; intro H; simpl; [reflexivity|].
  rewrite (H x (or_introl eq_refl)), IH; [reflexivity|].
  intros y Hy. apply H. now right.
Qed.

Lemma frame_known (components : list component) (onhand : list onhand_entry)
    (n : num) :
  frame components (Some (filter (known_entry components) onhand)) n
  = frame components (Some onhand) n.
Proof.
  rewrite !frame_flat_map. apply flat_map_ext_In. intros c Hc.
  simpl. unfold matching_cells. now rewrite (filter_filter_known _ _ _ Hc).
Qed.

End Unknown.

(** X7: on-hand entries whose name is the name of no component are ignored:
    [compute_results] does the same with and without them, and every row it
    returns carries the name of a component of the table. *)
Theorem unknown_entries_ignored
    (components : list component) (onhand : list onhand_entry)
    (cases_sold : num) :
  compute_results components
                  (Some (filter (known_entry components) onhand)) cases_sold
  = compute_results components (Some onhand) cases_sold /\
  (forall d m s,
      compute_results components (Some onhand) cases_sold = inr (d, m, s) ->
      forall r, In r d -> exists c, In c components /\ Component r = c_name c).
Proof.
  split.
  - unfold compute_results, compute_locals. now rewrite frame_known.
  - intros d m s H r Hr. apply compute_results_inv in H.
    destruct H as (-> & _ & _). apply (proj1 (sort_values_In _ _)) in Hr.
    apply frame_In in Hr. destruct Hr as (c & oh & Hc & _ & ->).
    exists c. auto.
Qed.

Lemma unknown_entries_ignored_witness :
  exists d m s,
    compute_results scenario_components
      (Some [("Z", Numeric (Fin 1)); ("Y", Numeric (Fin 10))]) (Fin 2)
    = inr (d, m, s) /\
    compute_results scenario_components (Some [("Y", Numeric (Fin 10))]) (Fin 2)
    = inr (d, m, s) /\
    forall r, In r d ->
              exists c, In c scenario_components /\ Component r = c_name c.
Proof.
  destruct (unknown_entries_ignored scenario_components
              [("Z", Numeric (Fin 1)); ("Y", Numeric (Fin 10))] (Fin 2))
    as [Heq Hnames].
  do 3 eexists. split; [reflexivity|]. split; [reflexivity|].
  exact (Hnames _ _ _ eq_refl).
Defined.

(* ================================================================== *)
(** * Properties of [load_excel] and [download_updated_inventory] *)

Module LoaderFacts.

Import Loader.

(** ** Dictionaries and frames *)

Section Dict.

Lemma find_app {A : Type} (p : A -> bool) (l1 l2 : list A) :
  find p (l1 ++ l2)
  = match find p l1 with
    | Some x => Some x
    | None => find p l2
    end.
Proof.
  induction l1 as [|x l1 IH]; simpl; [reflexivity|].
  destruct (p x); [reflexivity | exact IH].
Qed.

Lemma find_none_iff {A : Type} (p : A -> bool) (l : list A) :
  find p l = None <-> Forall (fun x => p x = false) l.
Proof.
  induction l as [|x l IH]; simpl.
  - split; [constructor | reflexivity].
  - destruct (p x) eqn:E.
    + split; [discriminate|]. intro H. inversion H. congruence.
    + rewrite IH. split.
      * intro H. constructor; assumption.
      * intro H. now inversion H.
Qed.

Lemma dict_get_set (k k' v : string) (d : dict) :
  dict_get k (dict_set k' v d)
  = if String.eqb k' k then Some v else dict_get k d.
Proof.
  unfold dict_get. induction d as [|[a b] t IH]; simpl.
  - destruct (String.eqb k' k); reflexivity.
  - destruct (String.eqb a k') eqn:Ea; simpl.
    + apply String.eqb_eq in Ea. subst a.
      destruct (String.eqb k' k); reflexivity.
    + destruct (String.eqb a k) eqn:Ek; simpl.
      * apply String.eqb_eq in Ek. subst a.
        rewrite String.eqb_sym in Ea. now rewrite Ea.
      * exact IH.
Qed.

Context {ops : StrOps}.

Lemma header_fold_get (columns : list string) :
  forall (d0 : dict) (k : string),
    dict_get k (fold_left (fun d c => dict_set (strip (lower c)) c d)
                          columns d0)
    = match find (fun c => String.eqb (strip (lower c)) k) (rev columns) with
      | Some c => Some c
      | None => dict_get k d0
      end.
Proof.
  induction columns as [|c t IH]; intros d0 k; simpl; [reflexivity|].
  rewrite IH, find_app. simpl.
  destruct (find _ (rev t)); [reflexivity|].
  rewrite dict_get_set. destruct (String.eqb (strip (lower c)) k); reflexivity.
Qed.

(** Line 27: of the headers that normalise to one key, the dictionary keeps
    the rightmost. *)
Lemma header_dict_get (columns : list string) (k : string) :
  dict_get k (header_dict columns)
  = find (fun c => String.eqb (strip (lower c)) k) (rev columns).
Proof.
  unfold header_dict. rewrite header_fold_get.
  destruct (find _ (rev columns)); reflexivity.
Qed.

Lemma header_dict_get_Some (columns : list string) (k c : string) :
  dict_get k (header_dict columns) = Some c ->
  In c columns /\ strip (lower c) = k.
Proof.
  rewrite header_dict_get. intro H. apply find_some in H.
  destruct H as [Hin Hk]. apply in_rev in Hin. apply String.eqb_eq in Hk. auto.
Qed.

Lemma header_dict_get_None (columns : list string) (k : string) :
  dict_get k (header_dict columns) = None <->
  Forall (fun c => strip (lower c) <> k) columns.
Proof.
  rewrite header_dict_get, find_none_iff. split; intro H.
  - apply Forall_rev in H. rewrite rev_involutive in H.
    eapply Forall_impl; [|exact H]. intros c Hc. now apply String.eqb_neq.
  - apply Forall_rev.
    eapply Forall_impl; [|exact H]. intros c Hc. now apply String.eqb_neq.
Qed.

End Dict.

Section Frames.

Lemma getcol_In (df : xframe) (c : string) :
  In c (map fst df) -> exists values, getcol df c = inr values.
Proof.
  unfold getcol. intro H.
  destruct (find (fun p => String.eqb (fst p) c) df) as [p|] eqn:E; [eauto|].
  exfalso. apply in_map_iff in H. destruct H as (p & Hp & Hin).
  pose proof (find_none _ _ E p Hin) as Hn. simpl in Hn.
  rewrite Hp, String.eqb_refl in Hn. discriminate.
Qed.

Lemma getcol_setcol_same (df : xframe) (c : string) (values : list xcell) :
  getcol (setcol df c values) c = inr values.
Proof.
  unfold getcol. induction df as [|[c' v'] t IH]; simpl.
  - now rewrite String.eqb_refl.
  - destruct (String.eqb c' c) eqn:E; simpl; rewrite E; [reflexivity|exact IH].
Qed.

Lemma getcol_setcol_other (df : xframe) (c c' : string) (values : list xcell) :
  c' <> c -> getcol (setcol df c values) c' = getcol df c'.
Proof.
  intro Hne. unfold getcol. induction df as [|[a v] t IH]; simpl.
  - apply String.eqb_neq in Hne. rewrite String.eqb_sym in Hne. now rewrite Hne.
  - destruct (String.eqb a c) eqn:E; simpl.
    + apply String.eqb_eq in E. subst a.
      apply String.eqb_neq in Hne. rewrite String.eqb_sym in Hne.
      now rewrite Hne.
    + destruct (String.eqb a c'); [reflexivity|exact IH].
Qed.

Lemma setcol_labels (df : xframe) (c c' : string) (values : list xcell) :
  In c' (map fst df) -> In c' (map fst (setcol df c values)).
Proof.
  induction df as [|[a v] t IH]; simpl; [tauto|].
  destruct (String.eqb a c); simpl; intros [H|H]; auto.
Qed.

Lemma read_excel_In (xls : workbook) (name : string) :
  In name (map fst xls) -> exists df, read_excel xls name = inr df.
Proof.
  unfold read_excel. intro H.
  destruct (find (fun sh => String.eqb (fst sh) name) xls) as [sh|] eqn:E;
    [eauto|].
  exfalso. apply in_map_iff in H. destruct H as (sh & Hs & Hin).
  pose proof (find_none _ _ E sh Hin) as Hn. simpl in Hn.
  rewrite Hs, String.eqb_refl in Hn. discriminate.
Qed.

Lemma index_of_map (f : string -> string) (x : string) (names : list string) :
  forall i, index_of x (map f names) = Some i ->
  exists pre s suf,
    names = pre ++ s :: suf /\ f s = x /\
    Forall (fun y => f y <> x) pre /\ item_at names i = inr s.
Proof.
  induction names as [|y t IH]; intros i H; simpl in H; [discriminate|].
  destruct (String.eqb (f y) x) eqn:E.
  - inversion H; subst i. apply String.eqb_eq in E.
    exists [], y, t. repeat split; auto.
  - destruct (index_of x (map f t)) as [j|] eqn:Hj; [|discriminate].
    inversion H; subst i.
    destruct (IH j eq_refl) as (pre & s & suf & Ht & Hs & Hpre & Hat).
    exists (y :: pre), s, suf. subst t. repeat split; auto.
    constructor; [now apply String.eqb_neq | exact Hpre].
Qed.

Lemma index_of_map_None (f : string -> string) (x : string)
    (names : list string) :
  index_of x (map f names) = None -> Forall (fun y => f y <> x) names.
Proof.
  induction names as [|y t IH]; intro H; simpl in H; [constructor|].
  destruct (String.eqb (f y) x) eqn:E; [discriminate|].
  destruct (index_of x (map f t)); [discriminate|].
  constructor; [now apply String.eqb_neq | now apply IH].
Qed.

End Frames.

(** ** Headers *)

Section Headers.

Context {ops : StrOps}.

Lemma find_rev_split {A : Type} (p : A -> bool) (l : list A) (c : A) :
  find p (rev l) = Some c <->
  exists pre suf, l = pre ++ c :: suf /\ p c = true /\
                  Forall (fun x => p x = false) suf.
Proof.
  split.
  - induction l as [|x l' IH] using rev_ind; [discriminate|].
    rewrite rev_app_distr. simpl. destruct (p x) eqn:E.
    + intro H. inversion H; subst x. exists l', []. auto.
    + intro H. destruct (IH H) as (pre & suf & -> & Hc & Hsuf).
      exists pre, (suf ++ [x]). rewrite <- app_assoc. simpl.
      repeat split; auto. apply Forall_app. auto.
  - intros (pre & suf & -> & Hc & Hsuf).
    rewrite rev_app_distr. simpl. rewrite <- app_assoc, find_app.
    assert (Hn : find p (rev suf) = None)
      by (apply find_none_iff, Forall_rev, Hsuf).
    rewrite Hn. simpl. now rewrite Hc.
Qed.

Lemma header_of_get (columns : list string) (key c : string) :
  dict_get key (header_dict columns) = Some c <-> header_of columns key c.
Proof.
  rewrite header_dict_get, find_rev_split. unfold header_of, norm.
  split; intros (pre & suf & Hl & Hc & Hsuf); exists pre, suf;
    repeat split; auto.
  - now apply String.eqb_eq.
  - eapply Forall_impl; [|exact Hsuf]. intros x Hx. now apply String.eqb_neq.
  - now apply String.eqb_eq.
  - eapply Forall_impl; [|exact Hsuf]. intros x Hx. now apply String.eqb_neq.
Qed.

Lemma no_header_get (columns : list string) (key : string) :
  dict_get key (header_dict columns) = None <-> no_header columns key.
Proof. apply header_dict_get_None. Qed.

Lemma header_of_In (columns : list string) (key c : string) :
  header_of columns key c -> In c columns.
Proof. intros (pre & suf & -> & _). apply in_elt. Qed.

End Headers.

(** X8: the dictionary of line 27 (and 63) finds a header whatever its case
    and surrounding blanks, and when several headers normalise to the same
    key it gives the rightmost of them; it gives nothing exactly when no
    header normalises to the key. *)
Theorem header_lookup_rightmost {ops : StrOps}
    (columns : list string) (key : string) :
  (forall c, dict_get key (header_dict columns) = Some c <->
             header_of columns key c) /\
  (dict_get key (header_dict columns) = None <-> no_header columns key) /\
  (forall pre a mid b suf,
      columns = pre ++ a :: mid ++ b :: suf ->
      norm a = key -> norm b = key -> no_header suf key ->
      dict_get key (header_dict columns) = Some b).
Proof.
  split; [|split].
  - intro c. apply header_of_get.
  - apply no_header_get.
  - intros pre a mid b suf Hc _ Hb Hsuf. apply header_of_get.
    exists (pre ++ a :: mid), suf. rewrite <- app_assoc. simpl. auto.
Qed.

Lemma header_lookup_rightmost_witness :
  dict_get "per_case"
    (@header_dict ascii_ops ["Component"; "Per_Case"; "UOM"; " per_case "])
  = Some " per_case ".
Proof.
  apply (proj2 (proj2 (@header_lookup_rightmost ascii_ops
                         ["Component"; "Per_Case"; "UOM"; " per_case "]
                         "per_case"))
           ["Component"] "Per_Case" ["UOM"] " per_case " []);
    [reflexivity | reflexivity | reflexivity | constructor].
Defined.

(** ** The formula sheet *)

(** X9: [load_excel] takes as formula sheet the first sheet whose lowercased
    name is "formula_695_cases"; if there is none, the first whose lowercased
    name is "formula"; if there is none either, the first sheet of the
    workbook. It fails (IndexError) exactly when the workbook has no
    sheet. *)
Theorem formula_sheet_choice {ops : StrOps} (names : list string) :
  match formula_sheet_of names with
  | inl e => e = IndexError /\ names = []
  | inr s =>
      exists pre suf,
        names = pre ++ s :: suf /\
        ((lower s = "formula_695_cases" /\
          Forall (fun y => lower y <> "formula_695_cases") pre)
         \/ (lower s = "formula" /\
             Forall (fun y => lower y <> "formula") pre /\
             Forall (fun y => lower y <> "formula_695_cases") names)
         \/ (pre = [] /\
             Forall (fun y => lower y <> "formula_695_cases") names /\
             Forall (fun y => lower y <> "formula") names))
  end.
Proof.
  unfold formula_sheet_of. simpl pick_named.
  destruct (index_of "formula_695_cases" (map lower names)) as [i|] eqn:E1.
  - destruct (index_of_map lower _ names i E1) as (pre & s & suf & Hn & Hs & Hp & Hat).
    rewrite Hat. simpl. exists pre, suf. split; [exact Hn|]. left. auto.
  - apply index_of_map_None in E1.
    destruct (index_of "formula" (map lower names)) as [i|] eqn:E2.
    + destruct (index_of_map lower _ names i E2) as (pre & s & suf & Hn & Hs & Hp & Hat).
      rewrite Hat. simpl. exists pre, suf. split; [exact Hn|].
      right. left. auto.
    + apply index_of_map_None in E2. simpl.
      destruct names as [|s t]; simpl; [auto|].
      exists [], t. split; [reflexivity|]. right. right. auto.
Qed.

Lemma formula_sheet_choice_witness :
  @formula_sheet_of ascii_ops ["Inventory"; "Formula"; "FORMULA_695_Cases"]
  = inr "FORMULA_695_Cases" /\
  match @formula_sheet_of ascii_ops ["Inventory"; "Formula"; "FORMULA_695_Cases"]
  with
  | inl e => e = IndexError /\ ["Inventory"; "Formula"; "FORMULA_695_Cases"] = []
  | inr s =>
      exists pre suf,
        ["Inventory"; "Formula"; "FORMULA_695_Cases"] = pre ++ s :: suf /\
        ((@lower ascii_ops s = "formula_695_cases" /\
          Forall (fun y => @lower ascii_ops y <> "formula_695_cases") pre)
         \/ (@lower ascii_ops s = "formula" /\
             Forall (fun y => @lower ascii_ops y <> "formula") pre /\
             Forall (fun y => @lower ascii_ops y <> "formula_695_cases")
                    ["Inventory"; "Formula"; "FORMULA_695_Cases"])
         \/ (pre = [] /\
             Forall (fun y => @lower ascii_ops y <> "formula_695_cases")
                    ["Inventory"; "Formula"; "FORMULA_695_Cases"] /\
             Forall (fun y => @lower ascii_ops y <> "formula")
                    ["Inventory"; "Formula"; "FORMULA_695_Cases"]))
  end.
Proof.
  split; [reflexivity|].
  exact (@formula_sheet_choice ascii_ops
           ["Inventory"; "Formula"; "FORMULA_695_Cases"]).
Defined.

(** ** The blocks of [load_excel] *)

Section Blocks.

Context {ops : StrOps}.

Lemma truthy_Some (o : option string) (c : string) :
  truthy o = Some c <-> o = Some c /\ c <> "".
Proof.
  destruct o as [[|a t]|]; simpl; split.
  - discriminate.
  - intros [H Hne]. inversion H; subst. now destruct Hne.
  - intro H. inversion H; subst. split; [reflexivity|discriminate].
  - now intros [H _].
  - discriminate.
  - now intros [H _].
Qed.

Lemma truthy_None (o : option string) :
  truthy o = None <-> o = None \/ o = Some "".
Proof.
  destruct o as [[|a t]|]; simpl.
  - split; auto.
  - split; [intro H; discriminate H | intros [H|H]; discriminate H].
  - split; auto.
Qed.

Lemma item_at_In (l : list string) (i : nat) (s : string) :
  item_at l i = inr s -> In s l.
Proof.
  unfold item_at. destruct (nth_error l i) as [x|] eqn:E; [|discriminate].
  intro H. inversion H; subst. eapply nth_error_In; eauto.
Qed.

Lemma pick_named_In (candidates names sheets : list string) (s : string) :
  pick_named candidates names sheets = inr (Some s) -> In s names.
Proof.
  induction candidates as [|c t IH]; simpl; [discriminate|].
  destruct (index_of c sheets) as [i|]; [|exact IH].
  destruct (item_at names i) as [e|x] eqn:E; simpl; [discriminate|].
  intro H. inversion H; subst. eapply item_at_In; eauto.
Qed.

Lemma pick_named_map_ok (candidates names : list string) :
  exists o, pick_named candidates names (map lower names) = inr o.
Proof.
  induction candidates as [|c t IH]; simpl; [eauto|].
  destruct (index_of c (map lower names)) as [i|] eqn:E; [|exact IH].
  destruct (index_of_map lower c names i E) as (_ & s & _ & _ & _ & _ & ->).
  simpl. eauto.
Qed.

Lemma formula_sheet_In (names : list string) (s : string) :
  formula_sheet_of names = inr s -> In s names.
Proof.
  unfold formula_sheet_of.
  destruct (pick_named _ names (map lower names)) as [e|[x|]] eqn:E; simpl.
  - discriminate.
  - intro H. inversion H; subst. eapply pick_named_In; eauto.
  - apply item_at_In.
Qed.

Lemma formula_sheet_raise (names : list string) (e : exn) :
  formula_sheet_of names = inl e -> e = IndexError /\ names = [].
Proof.
  unfold formula_sheet_of.
  destruct (pick_named_map_ok ["formula_695_cases"; "formula"] names)
    as [[x|] ->]; simpl; [discriminate|].
  destruct names as [|y t]; simpl; [|discriminate].
  intro H. inversion H. auto.
Qed.

Lemma component_column_ok (columns : list string) :
  columns <> [] ->
  exists c, component_column (header_dict columns) columns = inr c /\
            In c columns.
Proof.
  intro Hne. unfold component_column.
  destruct (truthy (dict_get "component" (header_dict columns))) as [c|] eqn:E.
  - exists c. split; [reflexivity|].
    apply truthy_Some in E. destruct E as [E _].
    now apply header_dict_get_Some in E.
  - destruct columns as [|c t]; [congruence|]. exists c. simpl. auto.
Qed.

Lemma div_col_cases (values : list xcell) (k : num) :
  (Forall (fun v => is_number v = true) values /\
   div_col values k = inr (map (scale k) values))
  \/ ((exists t, In (XText t) values) /\ div_col values k = inl TypeError).
Proof.
  induction values as [|v t IH]; simpl.
  - left. split; [constructor|reflexivity].
  - destruct v as [x|txt].
    + destruct IH as [[Hall ->]|[[txt Hin] ->]].
      * left. split; [constructor; [reflexivity|exact Hall] | reflexivity].
      * right. split; [exists txt; now right | reflexivity].
    + right. split; [exists txt; now left | reflexivity].
Qed.

(** Lines 30-43 by cases. *)
Lemma rate_column_cases (df : xframe) :
  let cols := header_dict (map fst df) in
  (exists pc, dict_get "per_case" cols = Some pc /\
              rate_column df cols = inr (Some (df, pc)))
  \/ (dict_get "per_case" cols = None /\
      truthy (dict_get "batch_qty" cols) = None /\
      rate_column df cols = inr None)
  \/ (dict_get "per_case" cols = None /\
      exists b qty,
        dict_get "batch_qty" cols = Some b /\ b <> "" /\
        getcol df b = inr qty /\
        (((exists t, In (XText t) qty) /\ rate_column df cols = inl TypeError)
         \/ (Forall (fun v => is_number v = true) qty /\
             rate_column df cols
             = inr (Some (setcol df "Per_Case" (map (scale (Fin 695)) qty),
                          "Per_Case"))))).
Proof.
  intro cols. unfold rate_column.
  destruct (dict_get "per_case" cols) as [pc|] eqn:Epc.
  - left. eauto.
  - right. destruct (truthy (dict_get "batch_qty" cols)) as [b|] eqn:Eb.
    + right. split; [reflexivity|].
      apply truthy_Some in Eb. destruct Eb as [Eb Hne].
      unfold dict_item. rewrite Eb. simpl.
      destruct (getcol_In df b) as [qty Hq].
      { now apply header_dict_get_Some in Eb. }
      exists b, qty. rewrite Hq. simpl. repeat split; auto.
      destruct (div_col_cases qty (Fin 695)) as [[Hall ->]|[Htxt ->]]; simpl; auto.
    + left. auto.
Qed.

Lemma filter_notna_Forall (rows : list (xcell * xcell * xcell)) :
  Forall (fun r => notna (fst (fst r)) = true)
         (filter (fun r => notna (fst (fst r))) rows).
Proof.
  apply Forall_forall. intros r Hr. now apply filter_In in Hr.
Qed.

Lemma build_components_ok (df : xframe) (comp pc : string)
    (uom : option string) :
  In comp (map fst df) -> In pc (map fst df) ->
  (forall u, uom = Some u -> In u (map fst df)) ->
  exists rows, build_components df comp pc uom = inr rows /\
               Forall (fun r => notna (fst (fst r)) = true) rows.
Proof.
  intros Hc Hp Hu. unfold build_components.
  destruct (getcol_In df comp Hc) as [names ->].
  destruct (getcol_In df pc Hp) as [rates ->]. simpl.
  destruct (truthy uom) as [u|] eqn:E.
  - apply truthy_Some in E. destruct E as [E _].
    destruct (getcol_In df u (Hu u E)) as [uoms ->]. simpl.
    eexists. split; [reflexivity|apply filter_notna_Forall].
  - simpl. eexists. split; [reflexivity|apply filter_notna_Forall].
Qed.

Lemma load_inventory_ok (xls : workbook) :
  exists o, load_inventory xls = inr o.
Proof.
  unfold load_inventory.
  destruct (truthy (find _ (map fst xls))) as [sheet|] eqn:E; [|eauto].
  apply truthy_Some in E. destruct E as [E _]. apply find_some in E.
  destruct E as [Hin _].
  destruct (read_excel_In xls sheet Hin) as [inv ->]. simpl.
  unfold dict_mem, dict_item.
  destruct (dict_get "component" (header_dict (map fst inv))) as [c|] eqn:Ec;
    [|simpl; eauto].
  destruct (dict_get "on_hand" (header_dict (map fst inv))) as [o|] eqn:Eo;
    [|simpl; eauto].
  simpl. apply header_dict_get_Some in Ec, Eo.
  destruct (getcol_In inv c (proj1 Ec)) as [names ->].
  destruct (getcol_In inv o (proj1 Eo)) as [qty ->]. simpl. eauto.
Qed.

Lemma setcol_label (df : xframe) (c : string) (values : list xcell) :
  In c (map fst (setcol df c values)).
Proof.
  induction df as [|[a v] t IH]; simpl; [auto|].
  destruct (String.eqb a c) eqn:E; simpl; [|auto].
  apply String.eqb_eq in E. auto.
Qed.

End Blocks.

(** ** [load_excel] as a whole *)

Section Whole.

Context {ops : StrOps}.

Lemma load_excel_after_read (xls : workbook) :
  load_excel xls
  = match formula_frame xls with
    | inl e => inl e
    | inr (s, df) => after_read xls s df
    end.
Proof.
  unfold load_excel, formula_frame, after_read.
  destruct (formula_sheet_of (map fst xls)) as [e|s]; [reflexivity|]. simpl.
  destruct (read_excel xls s) as [e|df]; reflexivity.
Qed.

Lemma formula_frame_sheet (xls : workbook) (s : string) (df : xframe) :
  formula_frame xls = inr (s, df) -> In s (map fst xls).
Proof.
  unfold formula_frame.
  destruct (formula_sheet_of (map fst xls)) as [e'|s'] eqn:E; simpl;
    [discriminate|].
  destruct (read_excel xls s'); simpl; [discriminate|].
  intro H. inversion H; subst. now apply formula_sheet_In.
Qed.

(** After the columns are chosen nothing raises. *)
Lemma after_columns_ok (xls : workbook) (s : string) (df : xframe)
    (comp pc : string) :
  In comp (map fst df) -> In pc (map fst df) ->
  (forall u, dict_get "uom" (header_dict (map fst df)) = Some u ->
             In u (map fst df)) ->
  forall uom, uom = dict_get "uom" (header_dict (map fst df)) ->
  exists rows onhand,
    build_components df comp pc uom = inr rows /\
    load_inventory xls = inr onhand /\
    Forall (fun r => notna (fst (fst r)) = true) rows.
Proof.
  intros Hc Hp Hu uom ->.
  destruct (build_components_ok df comp pc _ Hc Hp Hu) as (rows & Hb & Hall).
  destruct (load_inventory_ok xls) as [o Ho].
  exists rows, o. auto.
Qed.

Lemma uom_header_In (df : xframe) (u : string) :
  dict_get "uom" (header_dict (map fst df)) = Some u -> In u (map fst df).
Proof. intro H. now apply header_dict_get_Some in H. Qed.

(** The outcome of [after_read], by the cases of lines 29-43. *)
Lemma after_read_cases (xls : workbook) (s : string) (df : xframe) :
  let cols := header_dict (map fst df) in
  (df = [] /\ after_read xls s df = inl IndexError)
  \/ (df <> [] /\ dict_get "per_case" cols = None /\
      truthy (dict_get "batch_qty" cols) = None /\
      after_read xls s df = inr None)
  \/ (df <> [] /\ dict_get "per_case" cols = None /\
      exists b qty t,
        dict_get "batch_qty" cols = Some b /\ b <> "" /\
        getcol df b = inr qty /\ In (XText t) qty /\
        after_read xls s df = inl TypeError)
  \/ (df <> [] /\
      exists ld, after_read xls s df = inr (Some ld) /\
                 l_formula_sheet ld = s /\
                 Forall (fun r => notna (fst (fst r)) = true)
                        (l_components ld)).
Proof.
  assert (Hd : df = [] \/ df <> [])
    by (destruct df; [left; reflexivity | right; discriminate]).
  intro cols. subst cols. destruct Hd as [Hd|Hne].
  - left. subst df. split; reflexivity.
  - right.
    assert (Hcols : map fst df <> []).
    { intro Hnil. apply map_eq_nil in Hnil. contradiction. }
    destruct (component_column_ok (map fst df) Hcols) as (comp & Hcomp & Hin).
    unfold after_read. rewrite Hcomp. simpl.
    destruct (rate_column_cases df)
      as [(pc & Hpc & Hrate)
         |[(Hpc & Hb & Hrate)
          |(Hpc & b & qty & Hb & Hbne & Hq & [[[t Ht] Hrate]|[Hnum Hrate]])]];
      rewrite Hrate; simpl.
    + right. right. split; [exact Hne|].
      apply header_dict_get_Some in Hpc.
      destruct (after_columns_ok xls s df comp pc Hin (proj1 Hpc)
                  (uom_header_In df) _ eq_refl)
        as (rows & onhand & Hrows & Hoh & Hall).
      rewrite Hrows. simpl. rewrite Hoh. simpl.
      eexists. split; [reflexivity|]. simpl. split; [reflexivity|exact Hall].
    + left. split; [exact Hne|]. split; [exact Hpc|].
      split; [exact Hb|reflexivity].
    + right. left. split; [exact Hne|]. split; [exact Hpc|].
      exists b, qty, t. split; [exact Hb|]. split; [exact Hbne|].
      split; [exact Hq|]. split; [exact Ht|reflexivity].
    + right. right. split; [exact Hne|].
      set (df' := setcol df "Per_Case" (map (scale (Fin 695)) qty)).
      assert (Hu : forall u, dict_get "uom" (header_dict (map fst df)) = Some u ->
                         In u (map fst df')).
      { intros u Hu. apply setcol_labels. now apply uom_header_In. }
      destruct (build_components_ok df' comp "Per_Case"
                  (dict_get "uom" (header_dict (map fst df)))
                  (setcol_labels _ _ _ _ Hin) (setcol_label _ _ _) Hu)
        as (rows & Hrows & Hall).
      destruct (load_inventory_ok xls) as [onhand Hoh].
      rewrite Hrows. simpl. rewrite Hoh. simpl.
      eexists. split; [reflexivity|]. simpl. split; [reflexivity|exact Hall].
Qed.

End Whole.

(** X10: two situations in which [load_excel] raises.  It raises IndexError
    when the workbook has no sheet or the formula sheet has no column; it
    raises TypeError when the formula sheet has no per-case header, has a
    batch-quantity header, and that column holds text, which line 39 cannot
    divide by a float. *)
Theorem load_excel_raises {ops : StrOps} (xls : workbook) :
  (xls = [] \/ (exists s, formula_frame xls = inr (s, [])) ->
   load_excel xls = inl IndexError) /\
  (forall s df b qty t,
      formula_frame xls = inr (s, df) ->
      no_header (map fst df) "per_case" ->
      header_of (map fst df) "batch_qty" b -> b <> "" ->
      getcol df b = inr qty -> In (XText t) qty ->
      load_excel xls = inl TypeError).
Proof.
  rewrite load_excel_after_read. split.
  - intros [->|[s Hf]]; [reflexivity | rewrite Hf; reflexivity].
  - intros s df b qty t Hf Hpc Hb Hbne Hq Ht.
    rewrite Hf. apply no_header_get in Hpc. apply header_of_get in Hb.
    destruct (after_read_cases xls s df)
      as [[-> Hr]|[(_ & _ & Hb' & Hr)|[(_ & _ & b' & qty' & t' & Hb' & _ & Hq' & Ht' & Hr)
                                     |(Hne & ld & Hr & _)]]].
    + discriminate Hb.
    + apply truthy_None in Hb'. rewrite Hb in Hb'.
      destruct Hb' as [Hb'|Hb']; [discriminate|]. inversion Hb'. congruence.
    + exact Hr.
    + exfalso. unfold after_read in Hr.
      destruct (component_column _ _) as [e0|comp]; [discriminate Hr|].
      simpl in Hr.
      destruct (rate_column_cases df)
        as [(pc & Hpc' & _)
           |[(_ & Hb' & _)
            |(_ & b' & qty' & Hb' & _ & Hq' & [[_ Hrate]|[Hnum _]])]].
      * congruence.
      * apply truthy_None in Hb'. rewrite Hb in Hb'.
        destruct Hb' as [Hb'|Hb']; [discriminate|]. inversion Hb'. congruence.
      * rewrite Hrate in Hr. discriminate Hr.
      * rewrite Hb in Hb'. inversion Hb'; subst b'. rewrite Hq in Hq'.
        inversion Hq'; subst qty'. rewrite Forall_forall in Hnum.
        specialize (Hnum _ Ht). discriminate Hnum.
Qed.

Lemma load_excel_raises_witness :
  @load_excel ascii_ops [("Sheet1", [])] = inl IndexError /\
  @load_excel ascii_ops
    [("Formula", [("Component", [XText "Cap"]); ("Batch_Qty", [XText "abc"])])]
  = inl TypeError.
Proof.
  split.
  - apply (proj1 (@load_excel_raises ascii_ops [("Sheet1", [])])).
    right. exists "Sheet1". reflexivity.
  - apply (proj2 (@load_excel_raises ascii_ops
                    [("Formula", [("Component", [XText "Cap"]);
                                  ("Batch_Qty", [XText "abc"])])])
             "Formula"
             [("Component", [XText "Cap"]); ("Batch_Qty", [XText "abc"])]
             "Batch_Qty" [XText "abc"] "abc").
    + reflexivity.
    + repeat constructor; discriminate.
    + exists ["Component"], []. repeat split; constructor.
    + discriminate.
    + reflexivity.
    + now left.
Defined.

(** ** The columns [load_excel] reads *)

Section Columns.

Context {ops : StrOps}.

Lemma name_label_column (columns : list string) (X : string) :
  name_label columns X ->
  component_column (header_dict columns) columns = inr X /\ In X columns.
Proof.
  unfold component_column.
  intros [[Hh Hne]|[Hno (rest & ->)]].
  - split; [|now apply (header_of_In _ _ _ Hh)].
    apply header_of_get in Hh. rewrite Hh.
    destruct X; [now destruct Hne | reflexivity].
  - split; [|now left].
    destruct Hno as [Hno|Hno].
    + apply no_header_get in Hno. now rewrite Hno.
    + apply header_of_get in Hno. now rewrite Hno.
Qed.

Lemma uom_values_column (df : xframe) (n : nat) (us : list xcell) :
  uom_values df n us ->
  match truthy (dict_get "uom" (header_dict (map fst df))) with
  | Some u => getcol df u
  | None => inr (repeat (XText "") n)
  end = inr us.
Proof.
  intros [(U & Hh & Hne & Hg)|[Hno ->]].
  - apply header_of_get in Hh. rewrite Hh.
    destruct U; [now destruct Hne | exact Hg].
  - destruct Hno as [Hno|Hno].
    + apply no_header_get in Hno. now rewrite Hno.
    + apply header_of_get in Hno. now rewrite Hno.
Qed.

(** The per-case path of [load_excel]. *)
Lemma load_excel_per_case (xls : workbook) (s : string) (df : xframe)
    (X Y : string) (xs ys us : list xcell) :
  formula_frame xls = inr (s, df) ->
  header_of (map fst df) "per_case" Y ->
  name_label (map fst df) X ->
  getcol df X = inr xs -> getcol df Y = inr ys ->
  uom_values df (length xs) us ->
  exists onhand,
    load_inventory xls = inr onhand /\
    load_excel xls
    = inr (Some {| l_components :=
                     filter (fun r => notna (fst (fst r)))
                            (combine (combine xs ys) us);
                   l_onhand := onhand;
                   l_formula_sheet := s |}).
Proof.
  intros Hf HY HX Hxs Hys Hus.
  destruct (load_inventory_ok xls) as [onhand Hoh].
  exists onhand. split; [exact Hoh|].
  rewrite load_excel_after_read, Hf. unfold after_read.
  rewrite (proj1 (name_label_column _ _ HX)). simpl.
  unfold rate_column. apply header_of_get in HY. rewrite HY. simpl.
  unfold build_components. rewrite Hxs, Hys. simpl.
  rewrite (uom_values_column df _ us Hus). simpl.
  rewrite Hoh. reflexivity.
Qed.

(** The batch path of [load_excel]. *)
Lemma load_excel_batch (xls : workbook) (s : string) (df : xframe)
    (X B : string) (xs qty us : list xcell) :
  norm "Per_Case" = "per_case" ->
  formula_frame xls = inr (s, df) ->
  no_header (map fst df) "per_case" ->
  header_of (map fst df) "batch_qty" B -> B <> "" ->
  getcol df B = inr qty ->
  Forall (fun v => is_number v = true) qty ->
  name_label (map fst df) X ->
  getcol df X = inr xs ->
  uom_values df (length xs) us ->
  exists onhand,
    load_inventory xls = inr onhand /\
    load_excel xls
    = inr (Some {| l_components :=
                     filter (fun r => notna (fst (fst r)))
                            (combine (combine xs (map (scale (Fin 695)) qty))
                                     us);
                   l_onhand := onhand;
                   l_formula_sheet := s |}).
Proof.
  intros Hnorm Hf Hno HB HBne Hq Hnum HX Hxs Hus.
  destruct (load_inventory_ok xls) as [onhand Hoh].
  exists onhand. split; [exact Hoh|].
  assert (Hfresh : forall c, In c (map fst df) -> c <> "Per_Case").
  { intros c Hc ->. unfold no_header in Hno. rewrite Forall_forall in Hno.
    exact (Hno _ Hc Hnorm). }
  rewrite load_excel_after_read, Hf. unfold after_read.
  destruct (name_label_column _ _ HX) as [Hcomp HXin]. rewrite Hcomp. simpl.
  unfold rate_column. apply no_header_get in Hno. rewrite Hno.
  apply header_of_get in HB. rewrite HB.
  destruct B as [|a t]; [now destruct HBne|]. simpl truthy. cbv iota.
  unfold dict_item. rewrite HB. simpl. rewrite Hq. simpl.
  destruct (div_col_cases qty (Fin 695)) as [[_ ->]|[[t' Ht'] _]].
  - simpl. unfold build_components.
    rewrite (getcol_setcol_other df "Per_Case" X _ (Hfresh _ HXin)), Hxs.
    simpl. rewrite getcol_setcol_same. simpl.
    assert (Hu : match truthy (dict_get "uom" (header_dict (map fst df))) with
                 | Some u => getcol (setcol df "Per_Case"
                                            (map (scale (Fin 695)) qty)) u
                 | None => inr (repeat (XText "") (length xs))
                 end = inr us).
    { rewrite <- (uom_values_column df _ us Hus).
      destruct (truthy (dict_get "uom" (header_dict (map fst df))))
        as [u|] eqn:Eu; [|reflexivity].
      apply getcol_setcol_other, Hfresh.
      apply truthy_Some in Eu. destruct Eu as [Eu _].
      now apply header_dict_get_Some in Eu. }
    rewrite Hu. simpl. rewrite Hoh. reflexivity.
  - rewrite Forall_forall in Hnum. specialize (Hnum _ Ht'). discriminate Hnum.
Qed.

End Columns.

(** X11: [load_excel] gives up with three [None] (after its message) exactly
    when the formula sheet has columns, none of its headers normalises to
    "per_case", and none normalises to "batch_qty" except possibly an empty
    label; an inventory sheet does not change that. *)
Theorem load_excel_gives_up {ops : StrOps} (xls : workbook) :
  load_excel xls = inr None <->
  exists s df,
    formula_frame xls = inr (s, df) /\ df <> [] /\
    no_header (map fst df) "per_case" /\
    (no_header (map fst df) "batch_qty"
     \/ header_of (map fst df) "batch_qty" "").
Proof.
  rewrite load_excel_after_read. split.
  - destruct (formula_frame xls) as [e|[s df]] eqn:Ef; [discriminate|].
    intro H. exists s, df. split; [reflexivity|].
    destruct (after_read_cases xls s df)
      as [[_ Hr]|[(Hne & Hpc & Hb & _)|[(_ & _ & b & qty & t & _ & _ & _ & _ & Hr)
                                       |(_ & ld & Hr & _)]]];
      try (rewrite Hr in H; discriminate H).
    split; [exact Hne|]. split; [now apply no_header_get|].
    apply truthy_None in Hb. destruct Hb as [Hb|Hb].
    + left. now apply no_header_get.
    + right. now apply header_of_get.
  - intros (s & df & -> & Hne & Hpc & Hb).
    assert (Hcols : map fst df <> []).
    { intro Hnil. apply map_eq_nil in Hnil. contradiction. }
    destruct (component_column_ok (map fst df) Hcols) as (comp & Hcomp & _).
    unfold after_read. rewrite Hcomp. simpl. unfold rate_column.
    apply no_header_get in Hpc. rewrite Hpc.
    destruct Hb as [Hb|Hb].
    + apply no_header_get in Hb. now rewrite Hb.
    + apply header_of_get in Hb. now rewrite Hb.
Qed.

Lemma load_excel_gives_up_witness :
  @load_excel ascii_ops
    [("Formula", [("Component", [XText "Cap"]); ("Qty", [XNum (Fin 5)])]);
     ("Inventory", [("Component", [XText "Cap"]); ("On_Hand", [XNum (Fin 9)])])]
  = inr None.
Proof.
  apply (proj2 (@load_excel_gives_up ascii_ops _)).
  exists "Formula", [("Component", [XText "Cap"]); ("Qty", [XNum (Fin 5)])].
  split; [reflexivity|]. split; [discriminate|].
  split; [|left]; repeat constructor; discriminate.
Defined.

(** X12: when a header of the formula sheet normalises to "per_case",
    [load_excel] returns the sheet's rows (Component, Per_Case, UOM) whose
    component cell is not blank, in sheet order, whatever their per-case
    cell holds: rows with a rate of 0, a blank or a text rate are kept. The
    batch-quantity column is not consulted. *)
Theorem load_excel_components {ops : StrOps}
    (xls : workbook) (s : string) (df : xframe)
    (X Y : string) (xs ys us : list xcell) :
  formula_frame xls = inr (s, df) ->
  header_of (map fst df) "per_case" Y ->
  name_label (map fst df) X ->
  getcol df X = inr xs -> getcol df Y = inr ys ->
  uom_values df (length xs) us ->
  exists ld,
    load_excel xls = inr (Some ld) /\
    l_formula_sheet ld = s /\ In s (map fst xls) /\
    l_components ld
    = filter (fun r => notna (fst (fst r))) (combine (combine xs ys) us) /\
    Forall (fun r => notna (fst (fst r)) = true) (l_components ld).
Proof.
  intros Hf HY HX Hxs Hys Hus.
  destruct (load_excel_per_case xls s df X Y xs ys us Hf HY HX Hxs Hys Hus)
    as (onhand & _ & Hl).
  eexists. split; [exact Hl|]. simpl.
  split; [reflexivity|]. split; [exact (formula_frame_sheet _ _ _ Hf)|].
  split; [reflexivity | apply filter_notna_Forall].
Qed.

Lemma load_excel_components_witness :
  exists ld,
    @load_excel ascii_ops sample_workbook = inr (Some ld) /\
    l_formula_sheet ld = "FORMULA" /\
    l_components ld
    = [(XText "Cap", XNum (Fin 1), XText "");
       (XText "Label", XNum (Fin 0), XText "");
       (XText "Box", XText "tbd", XText "")].
Proof.
  destruct (@load_excel_components ascii_ops sample_workbook "FORMULA"
              sample_formula " COMPONENT" "per_case"
              [XText "Cap"; XNum NaN; XText "Label"; XText "Box"]
              [XNum (Fin 1); XNum (Fin 2); XNum (Fin 0); XText "tbd"]
              (repeat (XText "") 4))
    as (ld & Hl & Hs & _ & Hc & _).
  - reflexivity.
  - exists [" COMPONENT"], ["Batch_Qty"]. repeat split.
    repeat constructor; discriminate.
  - left. split; [|discriminate].
    exists [], ["per_case"; "Batch_Qty"]. repeat split.
    repeat constructor; discriminate.
  - reflexivity.
  - reflexivity.
  - right. split; [|reflexivity]. left. repeat constructor; discriminate.
  - exists ld. split; [exact Hl|]. split; [exact Hs|]. exact Hc.
Defined.

(** X13: when no header of the formula sheet normalises to "per_case" and
    one normalises to "batch_qty", its column holding numbers only,
    [load_excel] returns as per-case rate of every row its batch quantity
    divided by 695; blank quantities stay blank. *)
Theorem load_excel_batch_rate {ops : StrOps}
    (xls : workbook) (s : string) (df : xframe)
    (X B : string) (xs qty us : list xcell) :
  norm "Per_Case" = "per_case" ->
  formula_frame xls = inr (s, df) ->
  no_header (map fst df) "per_case" ->
  header_of (map fst df) "batch_qty" B -> B <> "" ->
  getcol df B = inr qty ->
  Forall (fun v => is_number v = true) qty ->
  name_label (map fst df) X ->
  getcol df X = inr xs ->
  uom_values df (length xs) us ->
  exists ld,
    load_excel xls = inr (Some ld) /\
    l_formula_sheet ld = s /\
    l_components ld
    = filter (fun r => notna (fst (fst r)))
             (combine (combine xs (map (scale (Fin 695)) qty)) us).
Proof.
  intros Hnorm Hf Hno HB HBne Hq Hnum HX Hxs Hus.
  destruct (load_excel_batch xls s df X B xs qty us
              Hnorm Hf Hno HB HBne Hq Hnum HX Hxs Hus) as (onhand & _ & Hl).
  eexists. split; [exact Hl|]. split; reflexivity.
Qed.

Lemma load_excel_batch_rate_witness :
  exists ld,
    @load_excel ascii_ops batch_workbook = inr (Some ld) /\
    l_formula_sheet ld = "Sheet1" /\
    l_components ld
    = [(XText "Cap", XNum (Fin 1), XText "");
       (XText "Label", XNum (Fin 2), XText "")].
Proof.
  destruct (@load_excel_batch_rate ascii_ops batch_workbook "Sheet1"
              batch_formula "Component" "Batch_Qty"
              [XText "Cap"; XText "Label"]
              [XNum (Fin 695); XNum (Fin 1390)]
              (repeat (XText "") 2))
    as (ld & Hl & Hs & Hc).
  - reflexivity.
  - reflexivity.
  - repeat constructor; discriminate.
  - exists ["Component"], []. repeat split. constructor.
  - discriminate.
  - reflexivity.
  - repeat constructor.
  - left. split; [|discriminate].
    exists [], ["Batch_Qty"]. repeat split. repeat constructor; discriminate.
  - reflexivity.
  - right. split; [|reflexivity]. left. repeat constructor; discriminate.
  - exists ld. split; [exact Hl|]. split; [exact Hs|].
    rewrite Hc. vm_compute. reflexivity.
Defined.

(** ** The inventory sheet *)

Section Inventory.

Context {ops : StrOps}.

Lemma find_first_split {A : Type} (p : A -> bool) (l pre suf : list A)
    (x : A) :
  l = pre ++ x :: suf -> Forall (fun y => p y = false) pre -> p x = true ->
  find p l = Some x.
Proof.
  intros -> Hpre Hx. rewrite find_app.
  apply find_none_iff in Hpre. rewrite Hpre. simpl. now rewrite Hx.
Qed.

Lemma load_inventory_absent (xls : workbook) :
  Forall (fun n => lower n <> "inventory") (map fst xls) ->
  load_inventory xls = inr None.
Proof.
  intro H. unfold load_inventory.
  assert (Hf : find (fun name => String.eqb (lower name) "inventory")
                    (map fst xls) = None).
  { apply find_none_iff. eapply Forall_impl; [|exact H].
    intros n Hn. now apply String.eqb_neq. }
  now rewrite Hf.
Qed.

Lemma load_inventory_sheet (xls : workbook) (pre suf : list string)
    (s : string) (inv : xframe) :
  map fst xls = pre ++ s :: suf ->
  Forall (fun n => lower n <> "inventory") pre ->
  lower s = "inventory" -> s <> "" ->
  read_excel xls s = inr inv ->
  load_inventory xls
  = (let inv_cols := header_dict (map fst inv) in
     if dict_mem "component" inv_cols && dict_mem "on_hand" inv_cols then
       c <-- dict_item "component" inv_cols ;;
       o <-- dict_item "on_hand" inv_cols ;;
       names <-- getcol inv c ;;
       qty <-- getcol inv o ;;
       inr (Some (combine names qty))
     else inr None).
Proof.
  intros Hn Hpre Hs Hne Hr. unfold load_inventory.
  rewrite (find_first_split _ _ pre suf s Hn).
  - destruct s; [now destruct Hne|]. simpl truthy. cbv iota.
    rewrite Hr. reflexivity.
  - eapply Forall_impl; [|exact Hpre]. intros n Hx. now apply String.eqb_neq.
  - rewrite Hs. reflexivity.
Qed.

End Inventory.

(** X14: [load_excel] reads the on-hand table from the first sheet whose
    lowercased name is "inventory". Without such a sheet, or when that sheet
    lacks a header that normalises to "component" or one that normalises to
    "on_hand", there is no on-hand table; otherwise the table is all the rows
    of the two columns, rows with a blank name included. *)
Theorem inventory_sheet_rows {ops : StrOps} (xls : workbook) :
  (Forall (fun n => lower n <> "inventory") (map fst xls) ->
   load_inventory xls = inr None) /\
  (forall pre s suf inv,
      map fst xls = pre ++ s :: suf ->
      Forall (fun n => lower n <> "inventory") pre ->
      lower s = "inventory" -> s <> "" ->
      read_excel xls s = inr inv ->
      (no_header (map fst inv) "component" \/
       no_header (map fst inv) "on_hand" ->
       load_inventory xls = inr None) /\
      (forall C O cs os,
          header_of (map fst inv) "component" C ->
          header_of (map fst inv) "on_hand" O ->
          getcol inv C = inr cs -> getcol inv O = inr os ->
          load_inventory xls = inr (Some (combine cs os)))).
Proof.
  split; [apply load_inventory_absent|].
  intros pre s suf inv Hn Hpre Hs Hne Hr.
  rewrite (load_inventory_sheet xls pre suf s inv Hn Hpre Hs Hne Hr).
  cbv zeta. unfold dict_mem, dict_item. split.
  - intros [Hno|Hno]; apply no_header_get in Hno; rewrite Hno.
    + reflexivity.
    + destruct (dict_get "component" _); reflexivity.
  - intros C O cs os HC HO Hcs Hos.
    apply header_of_get in HC, HO. rewrite HC, HO. simpl.
    rewrite Hcs. simpl. rewrite Hos. reflexivity.
Qed.

Lemma inventory_sheet_rows_witness :
  @load_inventory ascii_ops sample_workbook
  = inr (Some [(XText "Cap", XNum (Fin 40)); (XNum NaN, XNum (Fin 3))]) /\
  @load_inventory ascii_ops batch_workbook = inr None.
Proof.
  destruct (@inventory_sheet_rows ascii_ops sample_workbook) as (_ & Hs).
  destruct (@inventory_sheet_rows ascii_ops batch_workbook) as (Hb & _).
  split.
  - destruct (Hs ["Notes"; "FORMULA"] "Inventory" [] sample_inventory)
      as [_ Hrows].
    + reflexivity.
    + repeat constructor; discriminate.
    + reflexivity.
    + discriminate.
    + reflexivity.
    + apply (Hrows "Component" "ON_HAND "
                   [XText "Cap"; XNum NaN] [XNum (Fin 40); XNum (Fin 3)]).
      * exists [], ["ON_HAND "]. repeat split. repeat constructor; discriminate.
      * exists ["Component"], []. repeat split. constructor.
      * reflexivity.
      * reflexivity.
  - apply Hb. repeat constructor; discriminate.
Defined.

(** ** Reading back what [download_updated_inventory] writes *)

Section Reload.

Variable display : list row.
Variable original_onhand : option (list onhand_entry).
Variable formula_sheet_name : option string.

Let sheet : string := sheet_name_or_default formula_sheet_name.

Hypothesis sheet_not_inventory : lower_ascii sheet <> "inventory".

Lemma export_formula_frame :
  @formula_frame ascii_ops
    (download_updated_inventory display original_onhand formula_sheet_name)
  = inr (sheet, formula_view display).
Proof.
  unfold formula_frame, download_updated_inventory, formula_sheet_of.
  fold sheet. simpl map.
  assert (Hs : @formula_sheet_of ascii_ops [sheet; "INVENTORY"] = inr sheet).
  { unfold formula_sheet_of. simpl.
    destruct (String.eqb (lower_ascii sheet) "formula_695_cases");
      [reflexivity|].
    destruct (String.eqb (lower_ascii sheet) "formula"); reflexivity. }
  unfold formula_sheet_of in Hs. simpl map in Hs. rewrite Hs. simpl.
  unfold read_excel. simpl. now rewrite String.eqb_refl.
Qed.

Lemma export_rows_formula :
  filter (fun r : xcell * xcell * xcell => notna (fst (fst r)))
         (combine (combine (map (fun r => XText (Component r)) display)
                           (map (fun r => XNum (Per_Case r)) display))
                  (map (fun r => XText (UOM r)) display))
  = formula_rows display.
Proof.
  unfold formula_rows. induction display as [|r t IH]; simpl; [reflexivity|].
  now rewrite IH.
Qed.

Lemma export_rows_inventory :
  combine (map (fun r => XText (Component r)) display)
          (map (fun r => XNum (On_Hand r)) display)
  = inventory_rows display.
Proof.
  unfold inventory_rows. induction display as [|r t IH]; simpl; [reflexivity|].
  now rewrite IH.
Qed.

Lemma export_inventory :
  @load_inventory ascii_ops
    (download_updated_inventory display original_onhand formula_sheet_name)
  = inr (Some (inventory_rows display)).
Proof.
  rewrite (@load_inventory_sheet ascii_ops _ [sheet] [] "INVENTORY"
             (snapshot_view display)).
  - cbv zeta. rewrite <- export_rows_inventory. reflexivity.
  - reflexivity.
  - constructor; [exact sheet_not_inventory | constructor].
  - reflexivity.
  - discriminate.
  - unfold read_excel, download_updated_inventory. fold sheet. simpl.
    destruct (String.eqb sheet "INVENTORY") eqn:E; [|reflexivity].
    apply String.eqb_eq in E. exfalso. apply sheet_not_inventory.
    rewrite E. reflexivity.
Qed.

Lemma export_reload :
  @load_excel ascii_ops
    (download_updated_inventory display original_onhand formula_sheet_name)
  = inr (Some {| l_components := formula_rows display;
                 l_onhand := Some (inventory_rows display);
                 l_formula_sheet := sheet |}).
Proof.
  destruct (@load_excel_per_case ascii_ops
              (download_updated_inventory display original_onhand
                                          formula_sheet_name)
              sheet (formula_view display) "Component" "Per_Case"
              (map (fun r => XText (Component r)) display)
              (map (fun r => XNum (Per_Case r)) display)
              (map (fun r => XText (UOM r)) display))
    as (onhand & Hoh & Hl).
  - exact export_formula_frame.
  - exists ["Component"; "UOM"], []. repeat split. constructor.
  - left. split; [|discriminate].
    exists [], ["UOM"; "Per_Case"]. repeat split.
    repeat constructor; discriminate.
  - reflexivity.
  - reflexivity.
  - left. exists "UOM". split; [|split; [discriminate|reflexivity]].
    exists ["Component"], ["Per_Case"]. repeat split.
    repeat constructor; discriminate.
  - rewrite export_inventory in Hoh. inversion Hoh; subst onhand.
    rewrite Hl, export_rows_formula. reflexivity.
Qed.

End Reload.

(** X15: when the sheets that [download_updated_inventory] hands to the
    writer are read back as they are, and the name of the formula sheet does
    not lowercase to "inventory", [load_excel] takes the first written sheet
    as formula sheet (whatever its name), returns one component per returned
    row, and returns as on-hand table the [On_Hand] column of the rows: the
    quantities before the order, not [Remaining]. *)
Theorem snapshot_reload
    (display : list row) (original_onhand : option (list onhand_entry))
    (formula_sheet_name : option string) :
  lower_ascii (sheet_name_or_default formula_sheet_name) <> "inventory" ->
  @load_excel ascii_ops
    (download_updated_inventory display original_onhand formula_sheet_name)
  = inr (Some {| l_components := formula_rows display;
                 l_onhand := Some (inventory_rows display);
                 l_formula_sheet :=
                   sheet_name_or_default formula_sheet_name |}) /\
  length (formula_rows display) = length display /\
  map snd (inventory_rows display) = map (fun r => XNum (On_Hand r)) display.
Proof.
  intro H. split; [|split].
  - exact (export_reload display original_onhand formula_sheet_name H).
  - unfold formula_rows. apply length_map.
  - unfold inventory_rows. rewrite map_map. reflexivity.
Qed.

Lemma snapshot_reload_witness :
  exists d m s,
    compute_results scenario_components scenario_onhand (Fin 1)
    = inr (d, m, s) /\
    @load_excel ascii_ops (download_updated_inventory d None None)
    = inr (Some {| l_components :=
                     [(XText "X", XNum (Fin 2), XText "kg");
                      (XText "Y", XNum (Fin 5), XText "kg")];
                   l_onhand :=
                     Some [(XText "X", XNum (Fin 10)); (XText "Y", XNum (Fin 10))];
                   l_formula_sheet := "FORMULA" |}).
Proof.
  do 3 eexists. split; [reflexivity|].
  refine (proj1 (snapshot_reload _ None None _)). discriminate.
Defined.

(** ** What every successful load gives *)

(** X16: whenever [load_excel] returns components, the formula sheet it
    reports is a sheet of the workbook, no returned component has a blank
    name, and the call neither gave up nor raised on the way: the workbook
    has a sheet and its formula sheet has a column. *)
Theorem load_excel_invariants {ops : StrOps} (xls : workbook) (ld : loaded) :
  load_excel xls = inr (Some ld) ->
  In (l_formula_sheet ld) (map fst xls) /\
  Forall (fun r => notna (fst (fst r)) = true) (l_components ld) /\
  exists df, formula_frame xls = inr (l_formula_sheet ld, df) /\ df <> [].
Proof.
  rewrite load_excel_after_read.
  destruct (formula_frame xls) as [e|[s df]] eqn:Ef; [discriminate|].
  intro H.
  destruct (after_read_cases xls s df)
    as [[_ Hr]|[(_ & _ & _ & Hr)|[(_ & _ & b & qty & t & _ & _ & _ & _ & Hr)
                                 |(Hne & ld' & Hr & Hs & Hall)]]];
    rewrite Hr in H; try discriminate H.
  inversion H; subst ld'. rewrite Hs.
  split; [exact (formula_frame_sheet _ _ _ Ef)|]. split; [exact Hall|].
  exists df. auto.
Qed.

Lemma load_excel_invariants_witness :
  exists ld,
    @load_excel ascii_ops sample_workbook = inr (Some ld) /\
    In (l_formula_sheet ld) (map fst sample_workbook) /\
    Forall (fun r => notna (fst (fst r)) = true) (l_components ld) /\
    exists df, @formula_frame ascii_ops sample_workbook
               = inr (l_formula_sheet ld, df) /\ df <> [].
Proof.
  eexists. split; [reflexivity|].
  exact (@load_excel_invariants ascii_ops sample_workbook _ eq_refl).
Defined.

End LoaderFacts.
